(** * Open Surge: the scripting bridge (src/scripting/scripting.c)

    A shallow embedding of the integration layer between the engine and the
    SurgeScript virtual machine: the transform utilities that walk the object
    tree, the component protocol, and the lifecycle of the VM. *)

From Stdlib Require Import Reals Lra Lia ZArith.
From stdpp Require Import base option list strings gmap.

Local Open Scope R_scope.

(** ** Data model *)

(** Object handles are the [unsigned] keys of the object manager. *)
Definition surgescript_objecthandle_t := nat.

(** A C [float], idealised as a real number. *)
Abbreviation float := R.

(** [v2d_t] of core/v2d.h: a pair of floats. *)
Record v2d_t := v2d_new { v2d_x : float; v2d_y : float }.

(** Modelled from the spec: [surgescript_transform_t], whose declaration is in
    the SurgeScript headers; "2D position and a rotation angle in degrees".
    The fields are the ones scripting.c reads and writes: [position.x],
    [position.y] and [rotation.z]. *)
Record transform_t := mk_transform {
  position_x : float;
  position_y : float;
  rotation_z : float
}.

(** What [surgescript_transform_reset] leaves in a transform. *)
Definition transform_identity : transform_t := mk_transform 0 0 0.

(** Modelled from the spec: the object of the SurgeScript runtime, "node of a
    rooted, acyclic tree" with a type name, a local transform, an ordered
    collection of children and a back-reference to its parent. The transform
    is a pointer that stays NULL until the transform is first written. *)
Record object_t := mk_object {
  object_name : string;
  object_parent : surgescript_objecthandle_t;
  object_child : list surgescript_objecthandle_t;
  object_transform_ptr : option transform_t
}.

(** Modelled from the spec: the object manager, "a handle table (handle to
    object, exclusive owner of all objects)" with a designated root. *)
Record objectmanager_t := mk_manager {
  manager_data : gmap surgescript_objecthandle_t object_t;
  manager_root : surgescript_objecthandle_t
}.

(** A [surgescript_object_t*] is represented by the handle under which the
    manager stores the object: the manager owns every object, and pointers are
    only obtained through [surgescript_objectmanager_get]. Hence
    [surgescript_object_handle] is the identity and pointer comparison is
    comparison of handles. *)
Definition surgescript_objectmanager_null (manager : objectmanager_t) : surgescript_objecthandle_t := 0%nat.

Definition surgescript_objectmanager_root (manager : objectmanager_t) : surgescript_objecthandle_t :=
  manager_root manager.

(** The runtime raises a fatal error for a handle that is not in the table:
    [None]. *)
Definition surgescript_objectmanager_get (manager : objectmanager_t) (h : surgescript_objecthandle_t)
  : option object_t :=
  manager_data manager !! h.

Definition surgescript_object_parent (o : object_t) : surgescript_objecthandle_t := object_parent o.

(** "Has the transform of this object ever been changed?": the transform has
    been allocated. *)
Definition surgescript_object_transform_changed (o : object_t) : bool :=
  match object_transform_ptr o with Some _ => true | None => false end.

Definition surgescript_object_peek_transform (o : object_t) : transform_t :=
  default transform_identity (object_transform_ptr o).

(** [surgescript_object_transform] returns the inner, writable transform of
    the object, allocating it (as the identity) when it is still NULL. A write
    [transform->field = v] through that pointer is [write_transform] with the
    field update as [f]; the bare call writes nothing. *)
Definition update_transform (f : transform_t → transform_t) (o : object_t) : object_t :=
  mk_object (object_name o) (object_parent o) (object_child o)
            (Some (f (surgescript_object_peek_transform o))).

Definition write_transform (f : transform_t → transform_t)
    (manager : objectmanager_t) (object : surgescript_objecthandle_t) : objectmanager_t :=
  mk_manager (alter (update_transform f) object (manager_data manager))
             (manager_root manager).

Definition surgescript_object_transform (manager : objectmanager_t) (object : surgescript_objecthandle_t)
  : objectmanager_t :=
  write_transform (λ t, t) manager object.

Definition set_position (p : v2d_t) (t : transform_t) : transform_t :=
  mk_transform (v2d_x p) (v2d_y p) (rotation_z t).

Definition set_rotation_z (a : float) (t : transform_t) : transform_t :=
  mk_transform (position_x t) (position_y t) a.

(** C's [fmod]: [x - n * y] where [n] is [x / y] truncated toward zero, so the
    result has the sign of [x]. *)
Definition Rtrunc (x : R) : Z :=
  if Rle_dec 0 x then Int_part x else (- Int_part (- x))%Z.

Definition fmod (x y : R) : R := x - IZR (Rtrunc (x / y)) * y.

(** ** Transform engine *)

Section TransformEngine.

(** The two point transformations of the SurgeScript runtime that the
    engine calls; they are not part of this repository. *)
Variable surgescript_transform_apply2d : transform_t → v2d_t → v2d_t.
Variable surgescript_transform_apply2dinverse : transform_t → v2d_t → v2d_t.

(** The [while(handle != root)] loop of [scripting_util_world_position];
    [object] is the object [handle] refers to. *)
Fixpoint world_position_loop (fuel : nat) (manager : objectmanager_t)
    (root handle : surgescript_objecthandle_t) (object : object_t) (world_position : v2d_t)
  : option v2d_t :=
  if decide (handle = root) then Some world_position
  else match fuel with
       | O => None
       | S fuel =>
         let handle := surgescript_object_parent object in
         object ← surgescript_objectmanager_get manager handle;
         let world_position :=
           if surgescript_object_transform_changed object
           then surgescript_transform_apply2d
                  (surgescript_object_peek_transform object) world_position
           else world_position in
         world_position_loop fuel manager root handle object world_position
       end.

Definition scripting_util_world_position (fuel : nat)
    (manager : objectmanager_t) (object : surgescript_objecthandle_t) : option v2d_t :=
  o ← surgescript_objectmanager_get manager object;
  let root := surgescript_objectmanager_root manager in
  let handle := object in
  let transform := surgescript_object_peek_transform o in
  let world_position := v2d_new (position_x transform) (position_y transform) in
  world_position_loop fuel manager root handle o world_position.

Fixpoint scripting_util_world_angle (fuel : nat) (manager : objectmanager_t)
    (object : surgescript_objecthandle_t) : option float :=
  match fuel with
  | O => None
  | S fuel =>
    o ← surgescript_objectmanager_get manager object;
    let parent := surgescript_object_parent o in
    _ ← surgescript_objectmanager_get manager parent;
    parent_angle ← (if decide (parent ≠ object)
                    then scripting_util_world_angle fuel manager parent
                    else Some 0);
    let transform := surgescript_object_peek_transform o in
    Some (parent_angle + rotation_z transform)
  end.

(** [position] and [angle] are the two nullable out-pointers. *)
Fixpoint world2local (fuel : nat) (manager : objectmanager_t)
    (handle root : surgescript_objecthandle_t) (position : option v2d_t) (angle : option float)
  : option (option v2d_t * option float) :=
  match fuel with
  | O => None
  | S fuel =>
    object ← surgescript_objectmanager_get manager handle;
    '(position, angle) ← (if decide (handle ≠ root)
          then world2local fuel manager (surgescript_object_parent object)
                           root position angle
          else Some (position, angle));
    let transform := surgescript_object_peek_transform object in
    Some (fmap (M:=option) (surgescript_transform_apply2dinverse transform) position,
          fmap (M:=option) (λ a : float, a - rotation_z transform) angle)
  end.

Definition scripting_util_set_world_position (fuel : nat)
    (manager : objectmanager_t) (object : surgescript_objecthandle_t) (position : v2d_t)
  : option objectmanager_t :=
  o ← surgescript_objectmanager_get manager object;
  let root := surgescript_objectmanager_root manager in
  let handle := object in
  let manager := surgescript_object_transform manager object in
  '(position, _) ← (if decide (handle ≠ root)
        then world2local fuel manager (surgescript_object_parent o) root
                         (Some position) None
        else Some (Some position, None));
  position ← position;
  Some (write_transform (set_position position) manager object).

Definition scripting_util_set_world_angle (fuel : nat)
    (manager : objectmanager_t) (object : surgescript_objecthandle_t) (angle : float)
  : option objectmanager_t :=
  o ← surgescript_objectmanager_get manager object;
  let root := surgescript_objectmanager_root manager in
  let handle := object in
  let manager := surgescript_object_transform manager object in
  '(_, angle) ← (if decide (handle ≠ root)
        then world2local fuel manager (surgescript_object_parent o) root
                         None (Some angle)
        else Some (None, Some angle));
  angle ← angle;
  Some (write_transform (set_rotation_z (fmod angle 360)) manager object).

End TransformEngine.

(** ** Well-formed ancestor chains *)

(** [ancestor_chain manager h l]: walking the parent links from [h] reaches the
    designated root, and [l] lists the objects met on the way, from the parent
    of [h] up to and including the root. The root itself has the empty chain
    (depth 0). *)
Inductive ancestor_chain (manager : objectmanager_t)
  : surgescript_objecthandle_t → list object_t → Prop :=
| chain_root h :
    h = surgescript_objectmanager_root manager →
    is_Some (surgescript_objectmanager_get manager h) →
    ancestor_chain manager h []
| chain_step h o p l :
    h ≠ surgescript_objectmanager_root manager →
    surgescript_objectmanager_get manager h = Some o →
    surgescript_objectmanager_get manager (surgescript_object_parent o) = Some p →
    ancestor_chain manager (surgescript_object_parent o) l →
    ancestor_chain manager h (p :: l).

(** In the runtime the root is its own parent. *)
Definition root_is_own_parent (manager : objectmanager_t) : Prop :=
  ∀ r, surgescript_objectmanager_get manager (surgescript_objectmanager_root manager) = Some r →
       surgescript_object_parent r = surgescript_objectmanager_root manager.

Definition local_position (o : object_t) : v2d_t :=
  let transform := surgescript_object_peek_transform o in
  v2d_new (position_x transform) (position_y transform).

Definition local_rotation (o : object_t) : float :=
  rotation_z (surgescript_object_peek_transform o).

(** Sum of the local rotations of a list of objects, the head added last. *)
Definition rotation_sum (l : list object_t) : float :=
  foldr (λ a s, s + local_rotation a) 0 l.

(** The sum as the specification words it: "the root itself contributes zero".
    [chain] is the object followed by its ancestors, the root last. *)
Definition rotation_sum_below_root (chain : list object_t) : float :=
  rotation_sum (removelast chain).

Section ChainComposition.

Variable apply2d : transform_t → v2d_t → v2d_t.
Variable apply2dinverse : transform_t → v2d_t → v2d_t.

(** Child-to-root composition of the local transforms of [l]. *)
Definition compose_chain (l : list object_t) (p : v2d_t) : v2d_t :=
  fold_left (λ acc a, apply2d (surgescript_object_peek_transform a) acc) l p.

(** Root-to-parent composition of the inverse transforms of [l]. *)
Definition compose_chain_inverse (l : list object_t) (p : v2d_t) : v2d_t :=
  fold_left (λ acc a, apply2dinverse (surgescript_object_peek_transform a) acc)
            (rev l) p.

End ChainComposition.

(** Subtracting the rotations of [l], the root first. *)
Definition subtract_chain (l : list object_t) (a : float) : float :=
  fold_left (λ acc x, acc - local_rotation x) (rev l) a.

(** ** A rigid-motion instance of the runtime's point transformations *)

Definition deg2rad (a : float) : R := a * PI / 180.

(** Modelled from the spec: [surgescript_transform_apply2d], which lives in
    the SurgeScript runtime; "compose (rotate then translate) the accumulated
    position by that ancestor's local transform". *)
Definition rigid_apply2d (t : transform_t) (p : v2d_t) : v2d_t :=
  let c := cos (deg2rad (rotation_z t)) in
  let s := sin (deg2rad (rotation_z t)) in
  v2d_new (v2d_x p * c - v2d_y p * s + position_x t)
          (v2d_x p * s + v2d_y p * c + position_y t).

(** The inverse motion: the translation is taken back, then the rotation. *)
Definition rigid_apply2dinverse (t : transform_t) (p : v2d_t) : v2d_t :=
  let c := cos (deg2rad (rotation_z t)) in
  let s := sin (deg2rad (rotation_z t)) in
  let x := v2d_x p - position_x t in
  let y := v2d_y p - position_y t in
  v2d_new (x * c + y * s) (y * c - x * s).

(** ** Sample object trees *)

Definition sample_root : object_t :=
  mk_object "System" 1%nat [2%nat] None.
Definition sample_level : object_t :=
  mk_object "Level" 1%nat [3%nat] (Some (mk_transform 10 20 90)).
Definition sample_entity : object_t :=
  mk_object "Entity" 2%nat [4%nat] (Some (mk_transform 3 0 45)).
Definition sample_leaf : object_t :=
  mk_object "Leaf" 3%nat [] None.

Definition sample_manager : objectmanager_t :=
  mk_manager (<[1%nat := sample_root]> (<[2%nat := sample_level]>
             (<[3%nat := sample_entity]> (<[4%nat := sample_leaf]> ∅)))) 1%nat.

(** The smallest tree: a root that has never been moved. *)
Definition lone_root : objectmanager_t :=
  mk_manager (<[1%nat := mk_object "System" 1%nat [] None]> ∅) 1%nat.

(** A root that has been turned by 30 degrees. *)
Definition turned_root_object : object_t :=
  mk_object "System" 1%nat [] (Some (mk_transform 0 0 30)).

Definition turned_root : objectmanager_t :=
  mk_manager (<[1%nat := turned_root_object]> ∅) 1%nat.

(** ** Component resolution protocol *)

(** Modelled from the spec: [surgescript_object_child] of the SurgeScript
    runtime; "looks among the [...] existing children for one matching
    [name]". The first child of that name, or the null handle. A child that
    the manager cannot resolve is a fatal error of the runtime. *)
Fixpoint find_child (manager : objectmanager_t)
    (children : list surgescript_objecthandle_t) (name : string)
  : option surgescript_objecthandle_t :=
  match children with
  | [] => Some (surgescript_objectmanager_null manager)
  | c :: children =>
    child ← surgescript_objectmanager_get manager c;
    if decide (object_name child = name) then Some c
    else find_child manager children name
  end.

Definition surgescript_object_child (manager : objectmanager_t)
    (parent : object_t) (name : string) : option surgescript_objecthandle_t :=
  find_child manager (object_child parent) name.

(** Modelled from the spec: handles are unique within a session, so a new
    object gets a handle that is neither null nor in use. *)
Definition new_handle (manager : objectmanager_t) : surgescript_objecthandle_t :=
  fresh ({[surgescript_objectmanager_null manager]} ∪ dom (manager_data manager)).

Definition add_child (h : surgescript_objecthandle_t) (o : object_t) : object_t :=
  mk_object (object_name o) (object_parent o) (object_child o ++ [h])
            (object_transform_ptr o).

(** What the spec leaves open about a fresh object: the children and the
    transform it has once the runtime has constructed it, which may depend on
    the manager, the parent and the type spawned. *)
Definition constructor_t : Type :=
  objectmanager_t → surgescript_objecthandle_t → string →
  list surgescript_objecthandle_t * option transform_t.

(** Modelled from the spec: the object a spawn creates; it is "a new child of
    that type under the parent", so its name is the type and its parent the
    given handle. *)
Definition new_object (constructed : constructor_t) (manager : objectmanager_t)
    (parent : surgescript_objecthandle_t) (object_name : string) : object_t :=
  mk_object object_name parent (constructed manager parent object_name).1
            (constructed manager parent object_name).2.

(** Modelled from the spec: [surgescript_objectmanager_spawn] of the
    SurgeScript runtime; it "instantiates (spawns) a new child of that type
    under the parent and returns its handle". The new object is stored under a
    fresh handle, which is appended to the children of the parent. *)
Definition surgescript_objectmanager_spawn (constructed : constructor_t)
    (manager : objectmanager_t)
    (parent : surgescript_objecthandle_t) (object_name : string)
  : option (surgescript_objecthandle_t * objectmanager_t) :=
  p ← surgescript_objectmanager_get manager parent;
  let h := new_handle manager in
  let child := new_object constructed manager parent object_name in
  Some (h, mk_manager (<[h := child]> (<[parent := add_child h p]> (manager_data manager)))
                      (manager_root manager)).

Definition scripting_util_require_component (constructed : constructor_t)
    (manager : objectmanager_t)
    (object : surgescript_objecthandle_t) (component_name : string)
  : option (surgescript_objecthandle_t * objectmanager_t) :=
  o ← surgescript_objectmanager_get manager object;
  let parent_handle := surgescript_object_parent o in
  parent ← surgescript_objectmanager_get manager parent_handle;
  component ← surgescript_object_child manager parent component_name;
  if decide (component = surgescript_objectmanager_null manager)
  then surgescript_objectmanager_spawn constructed manager parent_handle component_name
  else Some (component, manager).

(** A runtime whose constructors leave a fresh object without children and
    with an untouched transform. *)
Definition bare_objects : constructor_t := λ _ _ _, ([], None).

(** ** Lifecycle of the virtual machine *)

Local Close Scope R_scope.

(** Modelled from the spec: the VM session, which "aggregates the root object,
    a handle table [...], the program pool, and an argument vector"; the
    program pool is a "mapping from (type name, function name) to compiled
    bytecode", of which only the keys matter here. The parser of the VM keeps
    the flags set by [surgescript_parser_set_flags]. *)
Record surgescript_vm_t := mk_vm {
  vm_objectmanager : objectmanager_t;
  vm_programpool : gset (string * string);
  vm_parser_flags : Z
}.

Definition surgescript_programpool_exists (pool : gset (string * string))
    (object_name fun_name : string) : bool :=
  bool_decide ((object_name, fun_name) ∈ pool).

(** Calls that leave this file, in the order they are made. *)
Inductive event : Type :=
| logfile_message (message : string)
| surgescript_util_set_error_functions
| surgescript_vm_create
| surgescript_vm_reset (success : bool)
| surgescript_vm_launch_ex (argc : nat) (argv : list string)
| scripting_register (component : string)
| surgescript_vm_compile (fullpath : string) (flags : Z) (success : bool)
| surgescript_objectmanager_plugin_object (name : string).

(** The file-level statics of scripting.c, the function-level static
    [cached_ref] of [scripting_util_surgeengine_object], and the trace of
    outside calls. *)
Record globals := mk_globals {
  vm : option surgescript_vm_t;
  vm_argv : option (list string);
  vm_argc : nat;
  test_mode : bool;
  cached_ref : surgescript_objecthandle_t;
  trace : list event
}.

(** [static surgescript_vm_t* vm = NULL; static char** vm_argv = NULL;
    static int vm_argc = 0; static bool test_mode = false;] and
    [static surgescript_objecthandle_t cached_ref = 0;]. *)
Definition initial_globals : globals := mk_globals None None 0 false 0 [].

(** A call returns, or ends the process through [fatal_error] (which "never
    returns, terminates the process"), or dereferences a NULL [vm]. *)
Inductive outcome (A : Type) : Type :=
| Returned (a : A) (g : globals)
| Fatal (message : string) (g : globals)
| Undefined.
Arguments Returned {A} a g.
Arguments Fatal {A} message g.
Arguments Undefined {A}.

Definition M (A : Type) : Type := globals → outcome A.

Definition ret {A} (a : A) : M A := λ g, Returned a g.

Definition bind {A B} (c : M A) (k : A → M B) : M B :=
  λ g, match c g with
       | Returned a g' => k a g'
       | Fatal message g' => Fatal message g'
       | Undefined => Undefined
       end.

#[global] Instance M_ret : MRet M := @ret.
#[global] Instance M_bind : MBind M := λ A B k c, bind c k.

Definition emit (e : event) : M unit :=
  λ g, Returned tt (mk_globals (vm g) (vm_argv g) (vm_argc g) (test_mode g)
                               (cached_ref g) (trace g ++ [e])).

Definition fatal_error {A} (message : string) : M A := λ g, Fatal message g.

Definition get_vm : M surgescript_vm_t :=
  λ g, match vm g with Some v => Returned v g | None => Undefined end.

Definition set_vm (v : option surgescript_vm_t) : M unit :=
  λ g, Returned tt (mk_globals v (vm_argv g) (vm_argc g) (test_mode g)
                               (cached_ref g) (trace g)).

Definition set_arguments (argc : nat) (argv : list string) : M unit :=
  λ g, Returned tt (mk_globals (vm g) (Some argv) argc (test_mode g)
                               (cached_ref g) (trace g)).

Definition set_test_mode (b : bool) : M unit :=
  λ g, Returned tt (mk_globals (vm g) (vm_argv g) (vm_argc g) b
                               (cached_ref g) (trace g)).

Definition get_vm_argc : M nat := λ g, Returned (vm_argc g) g.

(** A NULL [vm_argv] is passed on as no arguments. *)
Definition get_vm_argv : M (list string) := λ g, Returned (default [] (vm_argv g)) g.

Definition get_cached_ref : M surgescript_objecthandle_t :=
  λ g, Returned (cached_ref g) g.

Definition set_cached_ref (h : surgescript_objecthandle_t) : M unit :=
  λ g, Returned tt (mk_globals (vm g) (vm_argv g) (vm_argc g) (test_mode g)
                               h (trace g)).

(** What the engine expects of the SurgeScript runtime, of the asset
    filesystem and of the sibling files scripting/*.c: none of them is part of
    the file modelled here. *)
Class Collaborators := {
  (** [surgescript_util_versioncode(v)]; [None] is the NULL argument, which
      stands for the version of the runtime itself *)
  util_versioncode : option string → Z;
  (** [surgescript_util_version()] *)
  util_version : string;
  (** a fresh VM, as [surgescript_vm_create] returns it *)
  vm_create : surgescript_vm_t;
  (** [surgescript_vm_reset]: whether it succeeded and what is left *)
  vm_reset : surgescript_vm_t → bool * surgescript_vm_t;
  (** [surgescript_vm_launch_ex] *)
  vm_launch_ex : surgescript_vm_t → nat → list string → surgescript_vm_t;
  (** [scripting_register_<component>] *)
  register : string → surgescript_vm_t → surgescript_vm_t;
  (** [surgescript_vm_compile] *)
  vm_compile : surgescript_vm_t → string → bool * surgescript_vm_t;
  (** the files [assetfs_foreach_file] enumerates in a folder for an
      extension *)
  assetfs_files : string → string → list string;
  (** whether [assetfs_foreach_file] goes on after the callback returned the
      given value *)
  assetfs_proceeds : Z → bool;
  assetfs_fullpath : string → string;
  assetfs_is_primary_file : string → bool;
  (** [surgescript_objectmanager_plugin_object] *)
  plugin_object : objectmanager_t → string → surgescript_objecthandle_t;
  (** the parser flags of surgescript/compiler/parser.h *)
  SSPARSER_DEFAULTS : Z;
  SSPARSER_SKIP_DUPLICATES : Z
}.

(** [static const char* min_surgescript_version = "0.5.4";] *)
Definition min_surgescript_version : string := "0.5.4".

Section Lifecycle.

Context {ext : Collaborators}.

Definition surgescript_parser_set_flags (flags : Z) : M unit :=
  v ← get_vm;
  set_vm (Some (mk_vm (vm_objectmanager v) (vm_programpool v) flags)).

Definition call_vm_compile (fullpath : string) : M bool :=
  v ← get_vm;
  let '(success, v') := vm_compile v fullpath in
  emit (surgescript_vm_compile fullpath (vm_parser_flags v) success) ;;
  set_vm (Some v') ;;
  ret success.

Definition call_register (component : string) : M unit :=
  v ← get_vm;
  emit (scripting_register component) ;;
  set_vm (Some (register component v)).

Definition call_vm_launch_ex : M unit :=
  v ← get_vm;
  argc ← get_vm_argc;
  argv ← get_vm_argv;
  emit (surgescript_vm_launch_ex argc argv) ;;
  set_vm (Some (vm_launch_ex v argc argv)).

(** will check if the compiled SurgeScript version is compatible to this
    build of Open Surge *)
Definition check_if_compatible : M unit :=
  if decide (util_versioncode None < util_versioncode (Some min_surgescript_version))%Z
  then fatal_error ("This build requires at least SurgeScript "
                    +:+ min_surgescript_version +:+ " (using: "
                    +:+ util_version +:+ ")")
  else ret tt.

(** register SurgeEngine builtins *)
Definition surgeengine_builtins : list string :=
  ["surgeengine"; "actor"; "animation"; "brick"; "camera"; "collisions";
   "console"; "events"; "input"; "lang"; "level"; "levelmanager"; "mouse";
   "music"; "obstaclemap"; "player"; "prefs"; "screen"; "sensor"; "sound";
   "text"; "time"; "transform"; "vector2"; "web"].

Fixpoint register_all (components : list string) : M unit :=
  match components with
  | [] => ret tt
  | c :: components => call_register c ;; register_all components
  end.

Definition setup_surgeengine : M unit := register_all surgeengine_builtins.

(** compiles a script *)
Definition compile_script (filepath : string) : M Z :=
  let flags := SSPARSER_DEFAULTS in
  let fullpath := assetfs_fullpath filepath in
  let flags := if negb (assetfs_is_primary_file filepath)
               then Z.lor flags SSPARSER_SKIP_DUPLICATES else flags in
  surgescript_parser_set_flags flags ;;
  success ← call_vm_compile fullpath;
  surgescript_parser_set_flags SSPARSER_DEFAULTS ;;
  ret (if (success : bool) then 0 else -1)%Z.

(** Modelled from the spec: [assetfs_foreach_file] of core/assetfs.c;
    "invoke a callback once per file under a given folder matching an
    extension". Whether a callback result ends the enumeration early is
    left to [assetfs_proceeds]. *)
Fixpoint foreach_file (files : list string) (callback : string → M Z) : M unit :=
  match files with
  | [] => ret tt
  | f :: files =>
    r ← callback f;
    if assetfs_proceeds (r : Z) then foreach_file files callback else ret tt
  end.

Definition assetfs_foreach_file (folder extension : string)
    (callback : string → M Z) : M unit :=
  foreach_file (assetfs_files folder extension) callback.

(** do we have a test script? *)
Definition found_test_script : M bool :=
  v ← get_vm;
  let pool := vm_programpool v in
  ret (surgescript_programpool_exists pool "Application" "state:main").

(** compiles all .ss scripts from the scripts/ folder *)
Definition compile_scripts : M unit :=
  assetfs_foreach_file "scripts" ".ss" compile_script ;;
  found ← found_test_script;
  if (found : bool)
  then emit (logfile_message "Got a test script...") ;;
       set_test_mode true
  else call_register "application" ;;
       set_test_mode false.

(** [vm_argv\[argc\] = str_dup(argv\[argc\])] for [argc] counting down. *)
Fixpoint copy_arguments (argc : nat) (argv vm_argv : list string) : list string :=
  match argc with
  | O => vm_argv
  | S argc => copy_arguments argc argv (<[argc := default "" (argv !! argc)]> vm_argv)
  end.

Definition scripting_init (argc : nat) (argv : list string) : M unit :=
  emit surgescript_util_set_error_functions ;;
  check_if_compatible ;;
  emit surgescript_vm_create ;;
  set_vm (Some vm_create) ;;
  set_arguments argc (copy_arguments argc argv (replicate argc "")) ;;
  setup_surgeengine ;;
  compile_scripts ;;
  call_vm_launch_ex.

Definition scripting_testmode : M bool := λ g, Returned (test_mode g) g.

Definition scripting_reload : M unit :=
  emit (logfile_message "Reloading scripts...") ;;
  v ← get_vm;
  let '(success, v') := vm_reset v in
  emit (surgescript_vm_reset success) ;;
  set_vm (Some v') ;;
  if negb success
  then emit (logfile_message "Failed to reload the scripts")
  else setup_surgeengine ;;
       compile_scripts ;;
       call_vm_launch_ex ;;
       emit (logfile_message "The scripts have been reloaded!").

(** get the SurgeEngine object; the result is the handle that stands for the
    returned pointer, and a handle the manager cannot resolve is a fatal error
    of the runtime *)
Definition scripting_util_surgeengine_object (v : surgescript_vm_t)
  : M surgescript_objecthandle_t :=
  let manager := vm_objectmanager v in
  ref ← get_cached_ref;
  (if decide (ref = 0)
       then emit (surgescript_objectmanager_plugin_object "SurgeEngine") ;;
            set_cached_ref (plugin_object manager "SurgeEngine")
       else ret tt) ;;
  ref ← get_cached_ref;
  match surgescript_objectmanager_get manager ref with
  | Some _ => ret ref
  | None => fatal_error "null pointer exception"
  end.

(** The parser flags [compile_script] selects for a file. *)
Definition script_flags (filepath : string) : Z :=
  if assetfs_is_primary_file filepath then SSPARSER_DEFAULTS
  else Z.lor SSPARSER_DEFAULTS SSPARSER_SKIP_DUPLICATES.

Definition with_parser_flags (flags : Z) (v : surgescript_vm_t) : surgescript_vm_t :=
  mk_vm (vm_objectmanager v) (vm_programpool v) flags.

Definition is_compile_of (files : list string) (e : event) : Prop :=
  ∃ f ok, f ∈ files
          ∧ e = surgescript_vm_compile (assetfs_fullpath f) (script_flags f) ok.

End Lifecycle.

(** The statics with the test mode overwritten. *)
Definition set_test_mode_of (b : bool) (g : globals) : globals :=
  mk_globals (vm g) (vm_argv g) (vm_argc g) b (cached_ref g) (trace g).

(** What a call returned and the statics it left, when it returned. *)
Definition result_of {A} (o : outcome A) : option A :=
  match o with Returned a _ => Some a | _ => None end.

Definition globals_of {A} (o : outcome A) : option globals :=
  match o with Returned _ g => Some g | _ => None end.

(** ** A sample set of collaborators *)

Definition session_a : objectmanager_t :=
  mk_manager (<[1 := mk_object "System" 1 [2] None]>
             (<[2 := mk_object "SurgeEngine" 1 [] None]> ∅)) 1.

Definition session_b : objectmanager_t :=
  mk_manager (<[1 := mk_object "System" 1 [2; 3] None]>
             (<[2 := mk_object "Console" 1 [] None]>
             (<[3 := mk_object "SurgeEngine" 1 [] None]> ∅))) 1.

Definition empty_session : objectmanager_t := mk_manager ∅ 1.

(** The plugin is looked up among the children of the root. *)
Definition sample_plugin_object (manager : objectmanager_t) (name : string)
  : surgescript_objecthandle_t :=
  default 0 (r ← surgescript_objectmanager_get manager
                   (surgescript_objectmanager_root manager);
             find_child manager (object_child r) name).

Definition add_program (type : string) (v : surgescript_vm_t) : surgescript_vm_t :=
  mk_vm (vm_objectmanager v) ({[(type, "state:main")]} ∪ vm_programpool v)
        (vm_parser_flags v).

(** Only the script of a test suite defines the application. *)
Definition sample_compile (v : surgescript_vm_t) (fullpath : string) : surgescript_vm_t :=
  if decide (fullpath = "/game/scripts/test.ss") then add_program "Application" v else v.

(** Only the "application" builtin touches the program pool. *)
Definition sample_register (component : string) (v : surgescript_vm_t) : surgescript_vm_t :=
  if decide (component = "application") then add_program "Application" v else v.

Definition sample_collaborators (runtime_code : Z) (reset_ok : bool)
    (files : list string) : Collaborators := {|
  util_versioncode := λ version,
    match version with None => runtime_code | Some _ => 504%Z end;
  util_version := "0.5.3";
  vm_create := mk_vm empty_session ∅ 0;
  vm_reset := λ v, (reset_ok, mk_vm empty_session ∅ (vm_parser_flags v));
  vm_launch_ex := λ v _ _, mk_vm session_b (vm_programpool v) (vm_parser_flags v);
  register := sample_register;
  vm_compile := λ v fullpath, (true, sample_compile v fullpath);
  assetfs_files := λ _ _, files;
  assetfs_proceeds := λ r, bool_decide (r = 0%Z);
  assetfs_fullpath := λ filepath, "/game/" +:+ filepath;
  assetfs_is_primary_file := λ filepath, bool_decide (filepath ≠ "scripts/mod.ss");
  plugin_object := sample_plugin_object;
  SSPARSER_DEFAULTS := 0;
  SSPARSER_SKIP_DUPLICATES := 1
|}.

Definition sample_globals : globals :=
  mk_globals (Some (mk_vm session_a ∅ 0)) (Some ["opensurge"]) 1 false 0 [].

Definition sample_vm : surgescript_vm_t := mk_vm session_a ∅ 0.

Definition sample_scripts : list string :=
  ["scripts/player.ss"; "scripts/mod.ss"; "scripts/test.ss"].

(** The statics after the first lookup of the facade in [sample_globals]. *)
Definition sample_globals_after_lookup : globals :=
  mk_globals (Some sample_vm) (Some ["opensurge"]) 1 false 2
    [surgescript_objectmanager_plugin_object "SurgeEngine"].

(** The session a successful reload leaves when there is no script. *)
Definition sample_vm_after_reload : surgescript_vm_t :=
  mk_vm session_b {[("Application", "state:main")]} 0.

Definition sample_globals_after_reload : globals :=
  mk_globals (Some sample_vm_after_reload) (Some ["opensurge"]) 1 false 2
    ([surgescript_objectmanager_plugin_object "SurgeEngine";
      logfile_message "Reloading scripts...";
      surgescript_vm_reset true]
     ++ map scripting_register surgeengine_builtins
     ++ [scripting_register "application";
         surgescript_vm_launch_ex 1 ["opensurge"];
         logfile_message "The scripts have been reloaded!"]).

(** ** Further definitions *)

(** A set of handles that the parent links never leave and that misses the
    root. *)
Definition off_the_tree (manager : objectmanager_t)
    (stuck : surgescript_objecthandle_t → Prop) : Prop :=
  ∀ h, stuck h →
       h ≠ surgescript_objectmanager_root manager
       ∧ ∃ o, surgescript_objectmanager_get manager h = Some o
              ∧ stuck (surgescript_object_parent o).

(** Two objects that are each other's parent, beside the root. *)
Definition looped_manager : objectmanager_t :=
  mk_manager (<[1%nat := mk_object "System" 1%nat [] None]>
             (<[2%nat := mk_object "Ping" 3%nat [3%nat] None]>
             (<[3%nat := mk_object "Pong" 2%nat [2%nat] None]> ∅))) 1%nat.

(** the name of the parent object *)
Definition scripting_util_parent_name (manager : objectmanager_t)
    (object : surgescript_objecthandle_t) : option string :=
  o ← surgescript_objectmanager_get manager object;
  let parent_handle := surgescript_object_parent o in
  parent ← surgescript_objectmanager_get manager parent_handle;
  Some (object_name parent).

(** [manager'] has every object of [manager], under the same handle and with
    the same name, parent and transform; children may have been appended. *)
Definition extends (manager manager' : objectmanager_t) : Prop :=
  surgescript_objectmanager_root manager' = surgescript_objectmanager_root manager
  ∧ ∀ x o, surgescript_objectmanager_get manager x = Some o →
           ∃ o', surgescript_objectmanager_get manager' x = Some o'
                 ∧ object_name o' = object_name o
                 ∧ object_parent o' = object_parent o
                 ∧ object_transform_ptr o' = object_transform_ptr o
                 ∧ ∃ more, object_child o' = object_child o ++ more.

(** Two siblings under the root. *)
Definition family_manager : objectmanager_t :=
  mk_manager (<[1 := mk_object "System" 1 [2; 3] None]>
             (<[2 := mk_object "Player" 1 [] None]>
             (<[3 := mk_object "Enemy" 1 [] None]> ∅))) 1.

(** The call [compile_script] makes for a file, with the compiler's verdict. *)
Definition compile_event {ext : Collaborators} (filepath : string) (success : bool)
  : event :=
  surgescript_vm_compile (assetfs_fullpath filepath) (script_flags filepath) success.

(** A moved object under a root that was never touched. *)
Definition shallow_manager : objectmanager_t :=
  mk_manager (<[1%nat := mk_object "System" 1%nat [2%nat] None]>
             (<[2%nat := mk_object "Player" 1%nat [] (Some (mk_transform 5%R 6%R 70%R))]> ∅))
             1%nat.




Section LifecycleEvents.

Context {ext : Collaborators}.

(** The last call of [compile_scripts]: the log line of a test script, or the
    registration of the default application. *)
Definition test_mode_event (found : bool) : event :=
  if found then logfile_message "Got a test script..."
  else scripting_register "application".

Definition test_mode_vm (found : bool) (v : surgescript_vm_t) : surgescript_vm_t :=
  if found then v else register "application" v.

End LifecycleEvents.

(** * Properties *)

Local Open Scope R_scope.

(** ** Ancestor chains and the walks over them *)

Section TransformTheory.

Variable apply2d : transform_t → v2d_t → v2d_t.
Variable apply2dinverse : transform_t → v2d_t → v2d_t.

Lemma ancestor_chain_functional manager h l1 l2 :
  ancestor_chain manager h l1 → ancestor_chain manager h l2 → l1 = l2.
Proof.
  intros H1; revert l2.
  induction H1 as [h Hr Hs | h o p l Hne Ho Hp Hc IH]; intros l2 H2.
  - inversion H2; subst; [reflexivity | contradiction].
  - inversion H2 as [? Hr' | ? o' p' l' Hne' Ho' Hp' Hc']; subst.
    + contradiction.
    + rewrite Ho in Ho'. injection Ho' as <-.
      rewrite Hp in Hp'. injection Hp' as <-.
      f_equal. apply IH, Hc'.
Qed.

Lemma ancestor_chain_is_Some manager h l :
  ancestor_chain manager h l → is_Some (surgescript_objectmanager_get manager h).
Proof. destruct 1; eauto. Qed.

(** Below the root nobody is its own parent, nor its own ancestor. *)
Lemma ancestor_chain_shorter manager h l x lx :
  ancestor_chain manager h l → ancestor_chain manager x lx →
  (length lx < length l)%nat → x ≠ h.
Proof.
  intros Hh Hx Hlen ->.
  rewrite (ancestor_chain_functional _ _ _ _ Hh Hx) in Hlen. lia.
Qed.

Lemma world_position_loop_chain manager h l :
  ancestor_chain manager h l →
  ∀ fuel o wp, surgescript_objectmanager_get manager h = Some o →
    (length l ≤ fuel)%nat →
    world_position_loop apply2d fuel manager
      (surgescript_objectmanager_root manager) h o wp
    = Some (fold_left (λ acc a,
              if surgescript_object_transform_changed a
              then apply2d (surgescript_object_peek_transform a) acc
              else acc) l wp).
Proof.
  induction 1 as [h Hr Hs | h o p l Hne Ho Hp Hc IH]; intros fuel o0 wp Ho0 Hlen.
  - destruct fuel; simpl; rewrite decide_True by done; reflexivity.
  - destruct fuel as [|fuel]; [simpl in Hlen; lia|].
    simpl. rewrite decide_False by done.
    rewrite Ho in Ho0. injection Ho0 as <-.
    rewrite Hp. simpl.
    apply IH; [exact Hp | simpl in Hlen; lia].
Qed.

Lemma world2local_chain manager h l :
  ancestor_chain manager h l →
  ∀ fuel o position angle,
    surgescript_objectmanager_get manager h = Some o →
    (length l < fuel)%nat →
    world2local apply2dinverse fuel manager h
      (surgescript_objectmanager_root manager) position angle
    = Some (compose_chain_inverse apply2dinverse (o :: l) <$> position,
            subtract_chain (o :: l) <$> angle).
Proof.
  induction 1 as [h Hr Hs | h o p l Hne Ho Hp Hc IH];
    intros fuel o0 position angle Ho0 Hlen;
    (destruct fuel as [|fuel]; [simpl in Hlen; lia|]); simpl; rewrite Ho0; simpl.
  - rewrite decide_False by (intros Hn; apply Hn, Hr). simpl.
    destruct position, angle; reflexivity.
  - rewrite decide_True by done.
    rewrite Ho in Ho0. injection Ho0 as <-.
    rewrite (IH fuel p position angle Hp) by (simpl in Hlen; lia). simpl.
    unfold compose_chain_inverse, subtract_chain.
    destruct position, angle; simpl; rewrite ?fold_left_app; reflexivity.
Qed.

Lemma subtract_chain_sum l a : subtract_chain l a = a - rotation_sum l.
Proof.
  unfold subtract_chain, rotation_sum.
  induction l as [|x l IH]; simpl; [lra|].
  rewrite fold_left_app. simpl. rewrite IH. lra.
Qed.

Lemma world_angle_chain manager h l :
  root_is_own_parent manager →
  ancestor_chain manager h l →
  ∀ fuel o,
    surgescript_objectmanager_get manager h = Some o →
    (length l < fuel)%nat →
    scripting_util_world_angle fuel manager h = Some (rotation_sum (o :: l)).
Proof.
  intros Hroot.
  induction 1 as [h Hr Hs | h o p l Hne Ho Hp Hc IH]; intros fuel o0 Ho0 Hlen;
    (destruct fuel as [|fuel]; [simpl in Hlen; lia|]); simpl; rewrite Ho0; simpl.
  - subst h. rewrite (Hroot _ Ho0), Ho0. simpl.
    rewrite decide_False by (intros Hn; apply Hn; reflexivity).
    reflexivity.
  - rewrite Ho in Ho0. injection Ho0 as <-. rewrite Hp. simpl.
    assert (Hself : surgescript_object_parent o ≠ h).
    { eapply (ancestor_chain_shorter manager h (p :: l));
        [econstructor; eassumption | exact Hc | simpl; lia]. }
    rewrite decide_True by done.
    rewrite (IH fuel p Hp) by (simpl in Hlen; lia). reflexivity.
Qed.

(** *** Writing the transform of one object *)

Lemma get_write_transform f manager h x :
  surgescript_objectmanager_get (write_transform f manager h) x
  = if decide (h = x)
    then update_transform f <$> surgescript_objectmanager_get manager x
    else surgescript_objectmanager_get manager x.
Proof.
  unfold surgescript_objectmanager_get, write_transform. simpl.
  rewrite lookup_alter. case_decide; subst; reflexivity.
Qed.

Lemma get_write_transform_eq f manager h o :
  surgescript_objectmanager_get manager h = Some o →
  surgescript_objectmanager_get (write_transform f manager h) h
  = Some (update_transform f o).
Proof.
  intros Ho. rewrite get_write_transform, decide_True by done.
  rewrite Ho. reflexivity.
Qed.

Lemma get_write_transform_ne f manager h x :
  x ≠ h →
  surgescript_objectmanager_get (write_transform f manager h) x
  = surgescript_objectmanager_get manager x.
Proof.
  intros Hne. rewrite get_write_transform, decide_False by congruence.
  reflexivity.
Qed.

Lemma write_transform_twice f g manager h :
  write_transform g (write_transform f manager h) h
  = write_transform (λ t, g (f t)) manager h.
Proof.
  unfold write_transform. simpl. f_equal.
  rewrite alter_alter_eq. apply alter_ext. intros o _. reflexivity.
Qed.

Lemma ancestor_chain_write_above f manager h lh x lx :
  ancestor_chain manager h lh →
  ancestor_chain manager x lx →
  (length lx < length lh)%nat →
  ancestor_chain (write_transform f manager h) x lx.
Proof.
  intros Hh Hx. induction Hx as [x Hr Hs | x o p l Hne Ho Hp Hc IH]; intros Hlen.
  - apply chain_root; [exact Hr|].
    rewrite get_write_transform. case_decide; [apply fmap_is_Some|]; exact Hs.
  - assert (Hxh : x ≠ h).
    { eapply ancestor_chain_shorter; [exact Hh | econstructor; eassumption | exact Hlen]. }
    assert (Hph : surgescript_object_parent o ≠ h).
    { eapply ancestor_chain_shorter; [exact Hh | exact Hc | simpl in Hlen; lia]. }
    eapply chain_step.
    + exact Hne.
    + rewrite get_write_transform_ne by done. exact Ho.
    + rewrite get_write_transform_ne by done. exact Hp.
    + apply IH. simpl in Hlen; lia.
Qed.

Lemma ancestor_chain_write_self f manager h l :
  ancestor_chain manager h l →
  ancestor_chain (write_transform f manager h) h l.
Proof.
  intros Hh. pose proof Hh as Hh0.
  destruct Hh0 as [h Hr Hs | h o p l' Hne Ho Hp Hc].
  - apply chain_root; [exact Hr|].
    rewrite get_write_transform, decide_True by done.
    apply fmap_is_Some, Hs.
  - assert (Hph : surgescript_object_parent o ≠ h).
    { eapply ancestor_chain_shorter; [exact Hh | exact Hc | simpl; lia]. }
    eapply (chain_step _ h (update_transform f o)).
    + exact Hne.
    + apply get_write_transform_eq, Ho.
    + simpl. rewrite get_write_transform_ne by done. exact Hp.
    + simpl. eapply ancestor_chain_write_above; [exact Hh | exact Hc | simpl; lia].
Qed.

Lemma root_is_own_parent_write f manager h :
  root_is_own_parent manager → root_is_own_parent (write_transform f manager h).
Proof.
  intros Hroot r. rewrite get_write_transform. simpl.
  unfold surgescript_objectmanager_root in *. simpl.
  case_decide as Hd.
  - destruct (surgescript_objectmanager_get manager (manager_root manager)) as [r0|] eqn:Hr0;
      simpl; [|discriminate].
    intros [= <-]. simpl. apply (Hroot r0 Hr0).
  - apply Hroot.
Qed.

Section WithIdentity.

(** The identity transform leaves every point where it is. *)
Hypothesis apply2d_identity : ∀ p, apply2d transform_identity p = p.

Lemma apply2d_unchanged a p :
  (if surgescript_object_transform_changed a
   then apply2d (surgescript_object_peek_transform a) p else p)
  = apply2d (surgescript_object_peek_transform a) p.
Proof.
  unfold surgescript_object_transform_changed, surgescript_object_peek_transform.
  destruct (object_transform_ptr a); simpl; [reflexivity|].
  symmetry. apply apply2d_identity.
Qed.

Lemma fold_unchanged l p :
  fold_left (λ acc a,
      if surgescript_object_transform_changed a
      then apply2d (surgescript_object_peek_transform a) acc
      else acc) l p
  = compose_chain apply2d l p.
Proof.
  revert p. induction l as [|a l IH]; intros p; simpl; [reflexivity|].
  rewrite apply2d_unchanged. apply IH.
Qed.

Lemma world_position_compose manager h o l fuel :
  surgescript_objectmanager_get manager h = Some o →
  ancestor_chain manager h l →
  (length l ≤ fuel)%nat →
  scripting_util_world_position apply2d fuel manager h
  = Some (compose_chain apply2d l (local_position o)).
Proof.
  intros Ho Hc Hlen. unfold scripting_util_world_position.
  rewrite Ho. simpl.
  rewrite (world_position_loop_chain _ _ _ Hc) by done.
  rewrite fold_unchanged. reflexivity.
Qed.

End WithIdentity.

End TransformTheory.

(** ** Facts about [fmod] *)

Lemma fmod_multiple x y : ∃ k : Z, fmod x y = x - IZR k * y.
Proof. exists (Rtrunc (x / y)). reflexivity. Qed.

Lemma fmod_nonneg x y : 0 < y → 0 <= x → 0 <= fmod x y < y.
Proof.
  intros Hy Hx. unfold fmod, Rtrunc.
  assert (Hq : 0 <= x / y).
  { unfold Rdiv. apply Rmult_le_pos; [lra | left; apply Rinv_0_lt_compat; lra]. }
  destruct (Rle_dec 0 (x / y)) as [_|Hn]; [|contradiction].
  destruct (base_Int_part (x / y)) as [Hlo Hhi].
  assert (Hxy : x = x / y * y) by (field; lra).
  set (k := IZR (Int_part (x / y))) in *.
  split.
  - assert (k * y <= x / y * y) by (apply Rmult_le_compat_r; lra). lra.
  - assert ((x / y - k) * y < 1 * y) by (apply Rmult_lt_compat_r; lra). lra.
Qed.

Lemma fmod_nonpos x y : 0 < y → x <= 0 → - y < fmod x y <= 0.
Proof.
  intros Hy Hx. unfold fmod, Rtrunc.
  destruct (Rle_dec 0 (x / y)) as [Hq|Hq].
  - assert (Hx0 : x = 0).
    { assert (x / y * y = x) by (field; lra).
      assert (0 * y <= x / y * y) by (apply Rmult_le_compat_r; lra). lra. }
    subst x. replace (0 / y) with 0 by (field; lra).
    replace (Int_part 0) with 0%Z by (apply Int_part_spec; simpl; lra).
    simpl. lra.
  - destruct (base_Int_part (- (x / y))) as [Hlo Hhi].
    rewrite opp_IZR.
    assert (Hxy : x = x / y * y) by (field; lra).
    set (k := IZR (Int_part (- (x / y)))) in *.
    split.
    + assert ((- (x / y) - k) * y < 1 * y) by (apply Rmult_lt_compat_r; lra). lra.
    + assert (k * y <= - (x / y) * y) by (apply Rmult_le_compat_r; lra). lra.
Qed.

Lemma fmod_small x y : 0 < y → - y < x < y → fmod x y = x.
Proof.
  intros Hy Hx.
  destruct (fmod_multiple x y) as [k Hk].
  destruct (Rle_dec 0 x) as [H0|H0].
  - destruct (fmod_nonneg x y Hy H0) as [Hlo Hhi].
    assert (Hk0 : k = 0%Z).
    { rewrite Hk in Hlo, Hhi.
      assert (-1 < IZR k < 1) as [Ha Hb].
      { split; apply (Rmult_lt_reg_r y); try lra. }
      apply lt_IZR in Ha, Hb. lia. }
    rewrite Hk, Hk0. simpl. lra.
  - destruct (fmod_nonpos x y Hy ltac:(lra)) as [Hlo Hhi].
    assert (Hk0 : k = 0%Z).
    { rewrite Hk in Hlo, Hhi.
      assert (-1 < IZR k < 1) as [Ha Hb].
      { split; apply (Rmult_lt_reg_r y); try lra. }
      apply lt_IZR in Ha, Hb. lia. }
    rewrite Hk, Hk0. simpl. lra.
Qed.

(** The remainder is zero exactly at the whole multiples of the divisor. *)
Lemma fmod_zero_iff x y : 0 < y → fmod x y = 0 ↔ ∃ n : Z, x = IZR n * y.
Proof.
  intros Hy. destruct (fmod_multiple x y) as [k Hk]. split.
  - intros Hz. exists k. lra.
  - intros [n Hn].
    assert (Hrange : - y < fmod x y < y).
    { destruct (Rle_dec 0 x) as [H0|H0].
      - destruct (fmod_nonneg x y Hy H0). lra.
      - destruct (fmod_nonpos x y Hy ltac:(lra)). lra. }
    rewrite Hk, Hn in Hrange.
    assert (Hd : -1 < IZR (n - k) < 1).
    { rewrite minus_IZR. split; apply (Rmult_lt_reg_r y); lra. }
    destruct Hd as [Ha Hb]. apply lt_IZR in Ha, Hb.
    assert (n = k) by lia. subst n. lra.
Qed.

Lemma rigid_apply2d_identity p : rigid_apply2d transform_identity p = p.
Proof.
  destruct p as [x y]. unfold rigid_apply2d, deg2rad. simpl.
  replace (0 * PI / 180) with 0 by lra.
  rewrite cos_0, sin_0. f_equal; lra.
Qed.

Lemma rigid_apply2d_inverse t p : rigid_apply2d t (rigid_apply2dinverse t p) = p.
Proof.
  destruct p as [x y]. unfold rigid_apply2d, rigid_apply2dinverse. simpl.
  pose proof (sin2_cos2 (deg2rad (rotation_z t))) as H. unfold Rsqr in H.
  set (c := cos _) in *. set (s := sin _) in *.
  f_equal.
  - transitivity ((x - position_x t) * (s * s + c * c) + position_x t); [ring|].
    rewrite H. ring.
  - transitivity ((y - position_y t) * (s * s + c * c) + position_y t); [ring|].
    rewrite H. ring.
Qed.

Lemma sample_manager_chain :
  ancestor_chain sample_manager 4%nat [sample_entity; sample_level; sample_root].
Proof.
  eapply (chain_step _ 4%nat sample_leaf); [done | reflexivity | reflexivity |].
  eapply (chain_step _ 3%nat sample_entity); [done | reflexivity | reflexivity |].
  eapply (chain_step _ 2%nat sample_level); [done | reflexivity | reflexivity |].
  apply chain_root; [reflexivity | eexists; reflexivity].
Qed.

(** ** The code on the sample trees *)

Example world_angle_of_leaf :
  scripting_util_world_angle 4 sample_manager 4%nat = Some (0 + 0 + 90 + 45 + 0).
Proof. reflexivity. Qed.

Example world_angle_needs_fuel :
  scripting_util_world_angle 3 sample_manager 4%nat = None.
Proof. reflexivity. Qed.

Example world_position_of_root :
  scripting_util_world_position rigid_apply2d 0 sample_manager 1%nat
  = Some (v2d_new 0 0).
Proof. reflexivity. Qed.

Example fmod_of_full_turn_and_more : fmod 400 360 = 40.
Proof.
  unfold fmod, Rtrunc.
  destruct (Rle_dec 0 (400 / 360)) as [_|Hn]; [|exfalso; apply Hn; lra].
  replace (Int_part (400 / 360)) with 1%Z by (apply Int_part_spec; simpl; lra).
  lra.
Qed.

Example fmod_keeps_the_sign : fmod (-90) 360 = -90.
Proof. apply fmod_small; lra. Qed.

(** ** The transform engine: main results *)

Lemma compose_chain_cancel apply2d apply2dinverse l p :
  (∀ t q, apply2d t (apply2dinverse t q) = q) →
  compose_chain apply2d l (compose_chain_inverse apply2dinverse l p) = p.
Proof.
  intros Hinv. unfold compose_chain, compose_chain_inverse.
  induction l as [|a l IH]; simpl; [reflexivity|].
  rewrite fold_left_app. simpl. rewrite Hinv. exact IH.
Qed.

Lemma ancestor_chain_of_root manager h l :
  ancestor_chain manager h l → h = surgescript_objectmanager_root manager → l = [].
Proof. destruct 1; [reflexivity | contradiction]. Qed.

(** C1. The world position of an object is its local position carried through
    the local transform of each ancestor, from the parent up to and including
    the root, in that order; nothing but the object tree is read. For the root
    (depth 0) it is the local position. *)
Theorem world_position_ancestor_composition
    (apply2d : transform_t → v2d_t → v2d_t)
    (manager : objectmanager_t) (object : surgescript_objecthandle_t)
    (o : object_t) (l : list object_t) (fuel : nat) :
  (∀ p, apply2d transform_identity p = p) →
  surgescript_objectmanager_get manager object = Some o →
  ancestor_chain manager object l →
  (length l ≤ fuel)%nat →
  scripting_util_world_position apply2d fuel manager object
    = Some (compose_chain apply2d l (local_position o))
  ∧ (object = surgescript_objectmanager_root manager →
     scripting_util_world_position apply2d fuel manager object
       = Some (local_position o)).
Proof.
  intros Hid Ho Hc Hlen.
  pose proof (world_position_compose apply2d Hid manager object o l fuel Ho Hc Hlen) as Hw.
  split; [exact Hw|].
  intros Hroot. rewrite Hw, (ancestor_chain_of_root _ _ _ Hc Hroot). reflexivity.
Qed.

Lemma world_position_ancestor_composition_witness :
  scripting_util_world_position rigid_apply2d 3 sample_manager 4%nat
  = Some (compose_chain rigid_apply2d [sample_entity; sample_level; sample_root]
            (local_position sample_leaf)).
Proof.
  apply (world_position_ancestor_composition rigid_apply2d sample_manager 4%nat
           sample_leaf [sample_entity; sample_level; sample_root] 3%nat).
  - exact rigid_apply2d_identity.
  - reflexivity.
  - exact sample_manager_chain.
  - simpl. lia.
Defined.

(** What [scripting_util_set_world_position] and
    [scripting_util_set_world_angle] hand to [world2local]: the immediate
    parent, unless the object is the root. *)
Lemma world2local_from_parent apply2dinverse manager object o l fuel position angle :
  surgescript_objectmanager_get manager object = Some o →
  ancestor_chain manager object l →
  (length l ≤ fuel)%nat →
  (if decide (object ≠ surgescript_objectmanager_root manager)
   then world2local apply2dinverse fuel manager (surgescript_object_parent o)
          (surgescript_objectmanager_root manager) position angle
   else Some (position, angle))
  = Some (compose_chain_inverse apply2dinverse l <$> position,
          subtract_chain l <$> angle).
Proof.
  intros Ho Hc Hlen. destruct Hc as [h Hr Hs | h o' p l Hne Ho' Hp Hc].
  - rewrite decide_False by (intros Hn; apply Hn, Hr).
    destruct position, angle; reflexivity.
  - rewrite decide_True by done.
    rewrite Ho' in Ho. injection Ho as <-.
    apply (world2local_chain apply2dinverse manager _ l Hc); [exact Hp | simpl in Hlen; lia].
Qed.

(** C2. Setting the world position and reading it back gives the same point:
    the mutation carries the target through the inverse transforms of the
    ancestors, the root first and the immediate parent last, and stores the
    result as the local position of the object. Floats are idealised as reals
    and the runtime's inverse transformation is assumed to undo the forward
    one. *)
Theorem set_world_position_round_trip
    (apply2d apply2dinverse : transform_t → v2d_t → v2d_t)
    (manager : objectmanager_t) (object : surgescript_objecthandle_t)
    (l : list object_t) (fuel : nat) (P : v2d_t) :
  (∀ t p, apply2d t (apply2dinverse t p) = p) →
  (∀ p, apply2d transform_identity p = p) →
  ancestor_chain manager object l →
  (length l ≤ fuel)%nat →
  ∃ manager' o',
    scripting_util_set_world_position apply2dinverse fuel manager object P
      = Some manager'
    ∧ surgescript_objectmanager_get manager' object = Some o'
    ∧ local_position o' = compose_chain_inverse apply2dinverse l P
    ∧ scripting_util_world_position apply2d fuel manager' object = Some P.
Proof.
  intros Hinv Hid Hc Hlen.
  destruct (ancestor_chain_is_Some _ _ _ Hc) as [o Ho].
  set (manager1 := surgescript_object_transform manager object).
  assert (Hc1 : ancestor_chain manager1 object l)
    by (apply ancestor_chain_write_self, Hc).
  assert (Ho1 : surgescript_objectmanager_get manager1 object
                = Some (update_transform (λ t, t) o))
    by (apply get_write_transform_eq, Ho).
  set (P' := compose_chain_inverse apply2dinverse l P).
  set (manager2 := write_transform (set_position P') manager1 object).
  exists manager2, (update_transform (set_position P') (update_transform (λ t, t) o)).
  assert (Hset : scripting_util_set_world_position apply2dinverse fuel manager object P
                 = Some manager2).
  { unfold scripting_util_set_world_position. rewrite Ho. simpl.
    fold manager1.
    pose proof (world2local_from_parent apply2dinverse manager1 object _ l fuel
                  (Some P) None Ho1 Hc1 Hlen) as Hw.
    simpl in Hw. unfold surgescript_objectmanager_root, surgescript_object_parent in *.
    simpl in Hw. rewrite Hw. reflexivity. }
  assert (Ho2 : surgescript_objectmanager_get manager2 object
                = Some (update_transform (set_position P') (update_transform (λ t, t) o)))
    by (apply get_write_transform_eq, Ho1).
  assert (Hloc : local_position
                   (update_transform (set_position P') (update_transform (λ t, t) o)) = P')
    by (unfold local_position; simpl; destruct P'; reflexivity).
  repeat split; [exact Hset | exact Ho2 | exact Hloc |].
  rewrite (world_position_compose apply2d Hid manager2 object _ l fuel Ho2);
    [| apply ancestor_chain_write_self, Hc1 | exact Hlen].
  rewrite Hloc. unfold P'. rewrite compose_chain_cancel by exact Hinv. reflexivity.
Qed.

Lemma set_world_position_round_trip_witness :
  ∃ manager' o',
    scripting_util_set_world_position rigid_apply2dinverse 3 sample_manager 4%nat
        (v2d_new 7 (-2))
      = Some manager'
    ∧ surgescript_objectmanager_get manager' 4%nat = Some o'
    ∧ local_position o'
      = compose_chain_inverse rigid_apply2dinverse
          [sample_entity; sample_level; sample_root] (v2d_new 7 (-2))
    ∧ scripting_util_world_position rigid_apply2d 3 manager' 4%nat
      = Some (v2d_new 7 (-2)).
Proof.
  apply (set_world_position_round_trip rigid_apply2d rigid_apply2dinverse
           sample_manager 4%nat [sample_entity; sample_level; sample_root] 3%nat
           (v2d_new 7 (-2))).
  - exact rigid_apply2d_inverse.
  - exact rigid_apply2d_identity.
  - exact sample_manager_chain.
  - simpl. lia.
Defined.




(** At a whole turn below zero the remainder is zero: on a lone root, setting
    the world angle to -360 stores 0. *)
Example set_world_angle_whole_turn :
  ∃ manager' o',
    scripting_util_set_world_angle rigid_apply2dinverse 0 lone_root 1%nat (-360)
      = Some manager'
    ∧ surgescript_objectmanager_get manager' 1%nat = Some o'
    ∧ local_rotation o' = 0.
Proof.
  assert (Hf : fmod (-360) 360 = 0).
  { apply fmod_zero_iff; [lra|]. exists (-1)%Z. lra. }
  eexists _, _.
  split; [reflexivity|]. split; [reflexivity|]. exact Hf.
Qed.

(** C4 (as the code has it). The world angle is the sum of the local rotations
    of the object and of every ancestor up to and including the root: the
    root contributes its own rotation, and only the angle of its missing
    parent counts as zero. The recursion stops at the object that is its own
    parent, whatever the designated root of the manager; in a well-formed tree
    that object is the root. *)
Theorem world_angle_sums_whole_chain
    (manager : objectmanager_t) (object : surgescript_objecthandle_t)
    (o : object_t) (l : list object_t) (fuel : nat) :
  surgescript_objectmanager_get manager object = Some o →
  (surgescript_object_parent o = object →
   scripting_util_world_angle (S fuel) manager object = Some (0 + local_rotation o))
  ∧ (root_is_own_parent manager →
     ancestor_chain manager object l →
     (length l < fuel)%nat →
     scripting_util_world_angle fuel manager object = Some (rotation_sum (o :: l))
     ∧ (surgescript_object_parent o = object
        ↔ object = surgescript_objectmanager_root manager)).
Proof.
  intros Ho. split.
  - intros Hself. simpl. rewrite Ho. simpl. rewrite Hself, Ho. simpl.
    rewrite decide_False by (intros Hn; apply Hn; reflexivity).
    reflexivity.
  - intros Hroot Hc Hlen.
    split; [exact (world_angle_chain manager object l Hroot Hc fuel o Ho Hlen)|].
    split.
    + intros Hself. pose proof Hc as Hc0.
      destruct Hc0 as [h Hr Hs | h o' p l Hne Ho' Hp Hc']; [exact Hr|].
      exfalso. rewrite Ho' in Ho. injection Ho as ->.
      eapply (ancestor_chain_shorter manager h (p :: l)
                (surgescript_object_parent o) l);
        [exact Hc | exact Hc' | simpl; lia | exact Hself].
    + intros ->. apply (Hroot o Ho).
Qed.

Lemma world_angle_sums_whole_chain_witness :
  scripting_util_world_angle 4 sample_manager 4%nat
    = Some (rotation_sum [sample_leaf; sample_entity; sample_level; sample_root])
  ∧ scripting_util_world_angle 1 turned_root 1%nat
    = Some (0 + local_rotation turned_root_object).
Proof.
  split.
  - apply (proj2 (world_angle_sums_whole_chain sample_manager 4%nat sample_leaf
                    [sample_entity; sample_level; sample_root] 4%nat eq_refl)).
    + intros r [= <-]. reflexivity.
    + exact sample_manager_chain.
    + simpl. lia.
  - apply (proj1 (world_angle_sums_whole_chain turned_root 1%nat turned_root_object
                    [] 0%nat eq_refl)).
    reflexivity.
Defined.

(** C4, counterexample. For a root turned by 30 degrees the query returns 30,
    whereas a sum in which "the root itself contributes zero" is 0. *)
Lemma world_angle_root_counterexample :
  ancestor_chain turned_root 1%nat []
  ∧ ∃ a, scripting_util_world_angle 1 turned_root 1%nat = Some a
         ∧ a = 30
         ∧ a ≠ rotation_sum_below_root [turned_root_object].
Proof.
  split.
  - apply chain_root; [reflexivity | eexists; reflexivity].
  - eexists. split; [reflexivity|].
    unfold rotation_sum_below_root, rotation_sum, local_rotation. simpl.
    split; lra.
Qed.

(** *** Get-or-create *)

Example require_component_spawns :
  fst <$> scripting_util_require_component bare_objects sample_manager 4%nat "Camera" = Some 5%nat.
Proof. vm_compute. reflexivity. Qed.

Example require_component_finds :
  scripting_util_require_component bare_objects sample_manager 4%nat "Leaf"
  = Some (4%nat, sample_manager).
Proof. reflexivity. Qed.

Lemma new_handle_fresh manager :
  new_handle manager ≠ surgescript_objectmanager_null manager
  ∧ surgescript_objectmanager_get manager (new_handle manager) = None.
Proof.
  pose proof (is_fresh ({[surgescript_objectmanager_null manager]}
                        ∪ dom (manager_data manager))) as Hf.
  fold (new_handle manager) in Hf.
  split.
  - intros Heq. apply Hf. rewrite Heq. set_solver.
  - unfold surgescript_objectmanager_get. apply not_elem_of_dom. set_solver.
Qed.

Lemma find_child_found manager children name c :
  find_child manager children name = Some c →
  c ≠ surgescript_objectmanager_null manager →
  c ∈ children
  ∧ ∃ co, surgescript_objectmanager_get manager c = Some co ∧ object_name co = name.
Proof.
  induction children as [|x children IH]; simpl; intros Hf Hc.
  - injection Hf as <-. contradiction.
  - destruct (surgescript_objectmanager_get manager x) as [xo|] eqn:Hx; [|discriminate].
    simpl in Hf. case_decide as Hn.
    + injection Hf as <-. split; [left | eauto].
    + destruct (IH Hf Hc) as [Hin Hco]. split; [right; exact Hin | exact Hco].
Qed.

Lemma find_child_none manager children name :
  surgescript_objectmanager_get manager (surgescript_objectmanager_null manager) = None →
  find_child manager children name = Some (surgescript_objectmanager_null manager) →
  ∀ c, c ∈ children →
       ∃ co, surgescript_objectmanager_get manager c = Some co ∧ object_name co ≠ name.
Proof.
  intros Hnull. induction children as [|x children IH]; simpl; intros Hf c Hin.
  - inversion Hin.
  - destruct (surgescript_objectmanager_get manager x) as [xo|] eqn:Hx; [|discriminate].
    simpl in Hf. case_decide as Hn.
    + injection Hf as ->. congruence.
    + apply elem_of_cons in Hin as [->|Hin]; [eauto | apply IH; assumption].
Qed.

Lemma find_child_appended manager children name h child :
  (∀ c, c ∈ children →
        ∃ co, surgescript_objectmanager_get manager c = Some co ∧ object_name co ≠ name) →
  surgescript_objectmanager_get manager h = Some child →
  object_name child = name →
  find_child manager (children ++ [h]) name = Some h.
Proof.
  intros Hall Hh Hname. induction children as [|x children IH]; simpl.
  - rewrite Hh. simpl. rewrite decide_True by done. reflexivity.
  - destruct (Hall x) as (xo & Hx & Hxn); [left|].
    rewrite Hx. simpl. rewrite decide_False by done.
    apply IH. intros c Hc. apply Hall. right. exact Hc.
Qed.

(** C5. [scripting_util_require_component] returns the first child of the
    parent of the object that bears the name, and spawns one under the parent
    only when there is none. A second call returns the same handle and leaves
    the tree as the first call left it: over both calls the children of the
    parent gain exactly the one spawned member when the component was missing,
    and none when it was there. *)
Theorem require_component_get_or_create
    (constructed : constructor_t)
    (manager : objectmanager_t) (object : surgescript_objecthandle_t)
    (o parent : object_t) (name : string)
    (component : surgescript_objecthandle_t) :
  surgescript_objectmanager_get manager (surgescript_objectmanager_null manager) = None →
  surgescript_objectmanager_get manager object = Some o →
  surgescript_objectmanager_get manager (surgescript_object_parent o) = Some parent →
  surgescript_object_child manager parent name = Some component →
  ∃ h manager1 parent1 c,
    scripting_util_require_component constructed manager object name = Some (h, manager1)
    ∧ scripting_util_require_component constructed manager1 object name = Some (h, manager1)
    ∧ surgescript_objectmanager_get manager1 (surgescript_object_parent o) = Some parent1
    ∧ h ∈ object_child parent1
    ∧ surgescript_objectmanager_get manager1 h = Some c
    ∧ object_name c = name
    ∧ (component ≠ surgescript_objectmanager_null manager →
       h = component ∧ manager1 = manager)
    ∧ (component = surgescript_objectmanager_null manager →
       (∀ x, x ∈ object_child parent →
             ∃ xo, surgescript_objectmanager_get manager x = Some xo
                   ∧ object_name xo ≠ name)
       ∧ surgescript_objectmanager_get manager h = None
       ∧ (h ∉ object_child parent)
       ∧ object_child parent1 = object_child parent ++ [h]).
Proof.
  intros Hnull Ho Hp Hchild.
  assert (Hcall : ∀ m, (scripting_util_require_component constructed manager object name = m) ↔
            ((if decide (component = surgescript_objectmanager_null manager)
              then surgescript_objectmanager_spawn constructed manager (surgescript_object_parent o) name
              else Some (component, manager)) = m)).
  { intros m. unfold scripting_util_require_component.
    rewrite Ho. simpl. rewrite Hp. simpl. rewrite Hchild. reflexivity. }
  destruct (decide (component = surgescript_objectmanager_null manager)) as [Hc|Hc].
  - (* nothing of that name: spawn *)
    destruct (new_handle_fresh manager) as [Hh0 Hhnone].
    set (h := new_handle manager) in *.
    set (ph := surgescript_object_parent o) in *.
    set (child := new_object constructed manager ph name).
    set (manager1 := mk_manager (<[h := child]> (<[ph := add_child h parent]>
                                   (manager_data manager))) (manager_root manager)).
    assert (Hhph : h ≠ ph) by (intros Heq; rewrite <- Heq in Hp; congruence).
    assert (Hhobj : h ≠ object) by (intros Heq; rewrite <- Heq in Ho; congruence).
    assert (Hget1 : ∀ x, x ≠ h → x ≠ ph →
              surgescript_objectmanager_get manager1 x
              = surgescript_objectmanager_get manager x).
    { intros x Hx1 Hx2. unfold surgescript_objectmanager_get, manager1. simpl.
      rewrite !lookup_insert_ne by done. reflexivity. }
    assert (Hgeth : surgescript_objectmanager_get manager1 h = Some child).
    { unfold surgescript_objectmanager_get, manager1. simpl.
      apply lookup_insert_eq. }
    assert (Hgetp : surgescript_objectmanager_get manager1 ph = Some (add_child h parent)).
    { unfold surgescript_objectmanager_get, manager1. simpl.
      rewrite lookup_insert_ne by done. apply lookup_insert_eq. }
    subst component.
    pose proof (find_child_none manager _ name Hnull Hchild) as Hnone.
    assert (Hfirst : scripting_util_require_component constructed manager object name
                     = Some (h, manager1)).
    { apply Hcall. unfold surgescript_objectmanager_spawn. fold ph. rewrite Hp.
      reflexivity. }
    assert (Hnotin : h ∉ object_child parent).
    { intros Hin. destruct (Hnone h Hin) as (xo & Hx & _). congruence. }
    exists h, manager1, (add_child h parent), child.
    repeat split; try assumption.
    + (* the second call finds the spawned child *)
      unfold scripting_util_require_component.
      assert (Hobj1 : ∃ o1, surgescript_objectmanager_get manager1 object = Some o1
                            ∧ surgescript_object_parent o1 = ph).
      { destruct (decide (object = ph)) as [->|Hne].
        - exists (add_child h parent). split; [exact Hgetp|].
          simpl. rewrite Hp in Ho. injection Ho as ->. reflexivity.
        - exists o. split; [|reflexivity]. rewrite Hget1 by done. exact Ho. }
      destruct Hobj1 as (o1 & Ho1 & Hpar1). rewrite Ho1. simpl. rewrite Hpar1, Hgetp.
      simpl. unfold surgescript_object_child. simpl.
      rewrite (find_child_appended manager1 (object_child parent) name h child);
        [| | exact Hgeth | reflexivity].
      * simpl. rewrite decide_False by exact Hh0. reflexivity.
      * intros x Hx. destruct (Hnone x Hx) as (xo & Hxo & Hxn).
        destruct (decide (x = ph)) as [->|Hne].
        -- exists (add_child h parent). split; [exact Hgetp|].
           simpl. rewrite Hp in Hxo. injection Hxo as ->. exact Hxn.
        -- exists xo. split; [|exact Hxn]. rewrite Hget1; [exact Hxo | congruence | exact Hne].
    + simpl. apply elem_of_app. right. left.
    + congruence.
    + congruence.
  - (* a child of that name exists *)
    destruct (find_child_found manager _ name component Hchild Hc) as (Hin & co & Hco & Hname).
    exists component, manager, parent, co.
    assert (Hfirst : scripting_util_require_component constructed manager object name
                     = Some (component, manager)) by (apply Hcall; reflexivity).
    repeat split; try assumption; try contradiction.
Qed.

Lemma require_component_get_or_create_witness :
  ∃ h manager1 parent1 c,
    scripting_util_require_component bare_objects sample_manager 4%nat "Camera" = Some (h, manager1)
    ∧ scripting_util_require_component bare_objects manager1 4%nat "Camera" = Some (h, manager1)
    ∧ surgescript_objectmanager_get manager1 (surgescript_object_parent sample_leaf)
      = Some parent1
    ∧ h ∈ object_child parent1
    ∧ surgescript_objectmanager_get manager1 h = Some c
    ∧ object_name c = "Camera"
    ∧ (0%nat ≠ surgescript_objectmanager_null sample_manager →
       h = 0%nat ∧ manager1 = sample_manager)
    ∧ (0%nat = surgescript_objectmanager_null sample_manager →
       (∀ x, x ∈ object_child sample_entity →
             ∃ xo, surgescript_objectmanager_get sample_manager x = Some xo
                   ∧ object_name xo ≠ "Camera")
       ∧ surgescript_objectmanager_get sample_manager h = None
       ∧ (h ∉ object_child sample_entity)
       ∧ object_child parent1 = object_child sample_entity ++ [h]).
Proof.
  apply (require_component_get_or_create bare_objects sample_manager 4%nat sample_leaf
           sample_entity "Camera" 0%nat); reflexivity.
Defined.

Local Close Scope R_scope.

(** ** Lifecycle: step lemmas *)

Ltac run_M :=
  unfold mbind, M_bind, bind, mret, M_ret, ret, emit, fatal_error, get_vm, set_vm,
    set_arguments, set_test_mode, get_cached_ref, set_cached_ref, get_vm_argc,
    get_vm_argv; simpl.

Section LifecycleTheory.

Context {ext : Collaborators}.

Lemma compile_script_spec g v filepath :
  vm g = Some v →
  compile_script filepath g
  = let r := vm_compile (with_parser_flags (script_flags filepath) v)
                        (assetfs_fullpath filepath) in
    Returned (if r.1 then 0 else -1)%Z
      (mk_globals (Some (with_parser_flags SSPARSER_DEFAULTS r.2))
         (vm_argv g) (vm_argc g) (test_mode g) (cached_ref g)
         (trace g ++ [surgescript_vm_compile (assetfs_fullpath filepath)
                        (script_flags filepath) r.1])).
Proof.
  intros Hv. unfold compile_script, surgescript_parser_set_flags, call_vm_compile,
    script_flags, with_parser_flags.
  run_M. rewrite Hv. simpl.
  destruct (assetfs_is_primary_file filepath); simpl;
    match goal with |- context [vm_compile ?a ?b] => destruct (vm_compile a b) as [ok v'] end;
    simpl; reflexivity.
Qed.

Lemma foreach_compile_spec files :
  ∀ g v, vm g = Some v →
    ∃ v' compiled,
      foreach_file files compile_script g
      = Returned tt (mk_globals (Some v') (vm_argv g) (vm_argc g) (test_mode g)
                       (cached_ref g) (trace g ++ compiled))
      ∧ Forall (is_compile_of files) compiled
      ∧ (compiled ≠ [] → vm_parser_flags v' = SSPARSER_DEFAULTS)
      ∧ (compiled = [] → v' = v).
Proof.
  induction files as [|f files IH]; intros g v Hv.
  - exists v, []. simpl. run_M. rewrite app_nil_r, <- Hv.
    destruct g; repeat split; done.
  - simpl. run_M. rewrite (compile_script_spec g v f Hv). simpl.
    set (r := vm_compile _ _).
    set (e := surgescript_vm_compile _ _ _).
    set (g1 := mk_globals _ _ _ _ _ _).
    assert (He : is_compile_of (f :: files) e).
    { exists f, r.1. split; [left | reflexivity]. }
    destruct (assetfs_proceeds _).
    + destruct (IH g1 _ eq_refl) as (v' & compiled & Hrun & Hall & Hflags & Hnil).
      exists v', (e :: compiled). rewrite Hrun. simpl.
      rewrite <- app_assoc. simpl. repeat split; try done.
      * constructor; [exact He|].
        eapply Forall_impl; [exact Hall|].
        intros x (f' & ok & Hin & ->). exists f', ok. split; [right; exact Hin | reflexivity].
      * intros _. destruct compiled as [|e' compiled'].
        -- rewrite (Hnil eq_refl). reflexivity.
        -- apply Hflags. discriminate.
    + exists (with_parser_flags SSPARSER_DEFAULTS r.2), [e].
      run_M. repeat split; try done. constructor; [exact He | constructor].
Qed.

Lemma register_all_spec components :
  ∀ g v, vm g = Some v →
    register_all components g
    = Returned tt (mk_globals (Some (foldl (λ v c, register c v) v components))
                     (vm_argv g) (vm_argc g) (test_mode g) (cached_ref g)
                     (trace g ++ map scripting_register components)).
Proof.
  induction components as [|c components IH]; intros g v Hv.
  - simpl. run_M. rewrite app_nil_r, <- Hv. destruct g; reflexivity.
  - simpl. unfold call_register. run_M. rewrite Hv. simpl.
    fold (register_all components).
    erewrite (IH _ (register c v)) by reflexivity. simpl.
    rewrite <- app_assoc. reflexivity.
Qed.

End LifecycleTheory.

Section LifecycleResults.

Context {ext : Collaborators}.

Lemma compile_scripts_spec g v :
  vm g = Some v →
  ∃ v1 compiled,
    assetfs_foreach_file "scripts" ".ss" compile_script g
    = Returned tt (mk_globals (Some v1) (vm_argv g) (vm_argc g) (test_mode g)
                     (cached_ref g) (trace g ++ compiled))
    ∧ Forall (is_compile_of (assetfs_files "scripts" ".ss")) compiled
    ∧ compile_scripts g
      = Returned tt
          (if surgescript_programpool_exists (vm_programpool v1)
                "Application" "state:main"
           then mk_globals (Some v1) (vm_argv g) (vm_argc g) true (cached_ref g)
                  (trace g ++ compiled ++ [logfile_message "Got a test script..."])
           else mk_globals (Some (register "application" v1)) (vm_argv g)
                  (vm_argc g) false (cached_ref g)
                  (trace g ++ compiled ++ [scripting_register "application"])).
Proof.
  intros Hv.
  destruct (foreach_compile_spec (assetfs_files "scripts" ".ss") g v Hv)
    as (v1 & compiled & Hrun & Hall & _ & _).
  exists v1, compiled. unfold assetfs_foreach_file. split; [exact Hrun|].
  split; [exact Hall|].
  unfold compile_scripts, assetfs_foreach_file, found_test_script, call_register.
  run_M. rewrite Hrun. simpl.
  destruct (surgescript_programpool_exists _ _ _); simpl;
    rewrite <- app_assoc; reflexivity.
Qed.

Lemma call_vm_launch_ex_spec g v :
  vm g = Some v →
  call_vm_launch_ex g
  = Returned tt
      (mk_globals (Some (vm_launch_ex v (vm_argc g) (default [] (vm_argv g))))
         (vm_argv g) (vm_argc g) (test_mode g) (cached_ref g)
         (trace g ++ [surgescript_vm_launch_ex (vm_argc g) (default [] (vm_argv g))])).
Proof. intros Hv. unfold call_vm_launch_ex. run_M. rewrite Hv. reflexivity. Qed.

Lemma setup_surgeengine_spec g v :
  vm g = Some v →
  setup_surgeengine g
  = Returned tt (mk_globals (Some (foldl (λ v c, register c v) v surgeengine_builtins))
                   (vm_argv g) (vm_argc g) (test_mode g) (cached_ref g)
                   (trace g ++ map scripting_register surgeengine_builtins)).
Proof. apply register_all_spec. Qed.

(** Nothing in [scripting_reload] writes the static of
    [scripting_util_surgeengine_object], the argument vector or its length. *)
Lemma scripting_reload_keeps_statics g r g' :
  scripting_reload g = Returned r g' →
  cached_ref g' = cached_ref g ∧ vm_argv g' = vm_argv g ∧ vm_argc g' = vm_argc g.
Proof.
  unfold scripting_reload.
  unfold mbind, M_bind, bind, emit, get_vm, set_vm. cbn [vm vm_argv vm_argc test_mode cached_ref trace].
  destruct (vm g) as [v|] eqn:Hv; [|discriminate].
  destruct (vm_reset v) as [ok v'] eqn:Hreset.
  cbn [vm vm_argv vm_argc test_mode cached_ref trace negb].
  destruct ok; cbn [negb].
  - erewrite setup_surgeengine_spec by reflexivity.
    cbn [vm vm_argv vm_argc test_mode cached_ref trace].
    match goal with |- context [compile_scripts ?g1] =>
      destruct (compile_scripts_spec g1 _ eq_refl) as (v1 & compiled & _ & _ & Hc)
    end.
    rewrite Hc.
    destruct (surgescript_programpool_exists _ _ _);
      erewrite call_vm_launch_ex_spec by reflexivity;
      cbn [vm vm_argv vm_argc test_mode cached_ref trace];
      intros [= _ <-]; cbn [vm vm_argv vm_argc test_mode cached_ref trace]; done.
  - intros [= _ <-]. cbn [vm vm_argv vm_argc test_mode cached_ref trace]. done.
Qed.

End LifecycleResults.

(** C10, counterexample. The first lookup of a session resolves the facade and
    caches handle 2. After a successful [scripting_reload] the facade of the
    new session is at handle 3, yet the first lookup within that session does
    not resolve anything: it returns the handle cached in the previous
    session and adds nothing to the trace. *)
Lemma surgeengine_cache_outlives_session_counterexample :
  let ext := sample_collaborators 504 true [] in
  scripting_util_surgeengine_object sample_vm sample_globals
  = Returned 2 sample_globals_after_lookup
  ∧ scripting_reload sample_globals_after_lookup
    = Returned tt sample_globals_after_reload
  ∧ vm sample_globals_after_reload = Some sample_vm_after_reload
  ∧ plugin_object (vm_objectmanager sample_vm_after_reload) "SurgeEngine" = 3
  ∧ scripting_util_surgeengine_object sample_vm_after_reload
      sample_globals_after_reload
    = Returned 2 sample_globals_after_reload.
Proof.
  intros ext. repeat split; vm_compute; reflexivity.
Qed.

(** ** The lifecycle at the sample collaborators *)

Example compile_scripts_with_test_script :
  test_mode <$> globals_of (compile_scripts
                              (ext := sample_collaborators 504 true sample_scripts)
                              sample_globals)
  = Some true.
Proof. vm_compute. reflexivity. Qed.

Example compile_scripts_without_test_script :
  test_mode <$> globals_of (compile_scripts
                              (ext := sample_collaborators 504 true ["scripts/player.ss"])
                              (set_test_mode_of true sample_globals))
  = Some false.
Proof. vm_compute. reflexivity. Qed.

Example compile_scripts_flags_per_file :
  trace <$> globals_of (compile_scripts
                          (ext := sample_collaborators 504 true
                                    ["scripts/mod.ss"; "scripts/player.ss"])
                          sample_globals)
  = Some [surgescript_vm_compile "/game/scripts/mod.ss" 1 true;
          surgescript_vm_compile "/game/scripts/player.ss" 0 true;
          scripting_register "application"].
Proof. vm_compute. reflexivity. Qed.

Example scripting_init_copies_arguments :
  (λ g, (vm_argc g, vm_argv g))
    <$> globals_of (scripting_init (ext := sample_collaborators 504 true sample_scripts)
                      2 ["opensurge"; "--verbose"] initial_globals)
  = Some (2, Some ["opensurge"; "--verbose"]).
Proof. vm_compute. reflexivity. Qed.

(** ** Lifecycle: main results *)

(** C6. Once the script sources have been compiled, a program pool that holds
    ["state:main"] of ["Application"] switches the test mode on and the
    default application is not registered; otherwise the default application
    is registered and the test mode is off. Compiling registers nothing. *)
Theorem compile_scripts_test_mode
    (ext : Collaborators) (g : globals) (v : surgescript_vm_t) :
  vm g = Some v →
  ∃ v1 compiled,
    assetfs_foreach_file "scripts" ".ss" compile_script g
    = Returned tt (mk_globals (Some v1) (vm_argv g) (vm_argc g) (test_mode g)
                     (cached_ref g) (trace g ++ compiled))
    ∧ Forall (is_compile_of (assetfs_files "scripts" ".ss")) compiled
    ∧ (surgescript_programpool_exists (vm_programpool v1) "Application" "state:main"
         = true →
       compile_scripts g
       = Returned tt (mk_globals (Some v1) (vm_argv g) (vm_argc g) true (cached_ref g)
                        (trace g ++ compiled ++ [logfile_message "Got a test script..."])))
    ∧ (surgescript_programpool_exists (vm_programpool v1) "Application" "state:main"
         = false →
       compile_scripts g
       = Returned tt (mk_globals (Some (register "application" v1)) (vm_argv g)
                        (vm_argc g) false (cached_ref g)
                        (trace g ++ compiled ++ [scripting_register "application"]))).
Proof.
  intros Hv.
  destruct (compile_scripts_spec g v Hv) as (v1 & compiled & Hrun & Hall & Hc).
  exists v1, compiled. repeat split; try assumption.
  - intros Hfound. rewrite Hc, Hfound. reflexivity.
  - intros Hfound. rewrite Hc, Hfound. reflexivity.
Qed.

(** C8. When the reset of the VM fails, [scripting_reload] logs the failure
    and returns: nothing is registered, compiled or launched, and the argument
    vector and the test mode are as they were. *)
Theorem scripting_reload_aborts_on_failed_reset
    (ext : Collaborators) (g : globals) (v v' : surgescript_vm_t) :
  vm g = Some v →
  vm_reset v = (false, v') →
  scripting_reload g
  = Returned tt
      (mk_globals (Some v') (vm_argv g) (vm_argc g) (test_mode g) (cached_ref g)
         (trace g ++ [logfile_message "Reloading scripts...";
                      surgescript_vm_reset false;
                      logfile_message "Failed to reload the scripts"])).
Proof.
  intros Hv Hreset. unfold scripting_reload.
  unfold mbind, M_bind, bind, emit, get_vm, set_vm.
  cbn [vm vm_argv vm_argc test_mode cached_ref trace].
  rewrite Hv, Hreset. cbn [vm vm_argv vm_argc test_mode cached_ref trace negb].
  rewrite <- !app_assoc. reflexivity.
Qed.

(** C7. A runtime whose version code is below that of "0.5.4" ends
    [scripting_init] in [fatal_error] right after the error functions are
    installed: no VM is created, no argument is copied, nothing is registered,
    compiled or launched. Otherwise the guard returns and changes nothing. *)
Theorem scripting_init_version_guard
    (ext : Collaborators) (argc : nat) (argv : list string) (g : globals) :
  min_surgescript_version = "0.5.4"
  ∧ ((util_versioncode None < util_versioncode (Some "0.5.4"))%Z →
     scripting_init argc argv g
     = Fatal ("This build requires at least SurgeScript " +:+ "0.5.4"
              +:+ " (using: " +:+ util_version +:+ ")")
         (mk_globals (vm g) (vm_argv g) (vm_argc g) (test_mode g) (cached_ref g)
            (trace g ++ [surgescript_util_set_error_functions])))
  ∧ ((util_versioncode (Some "0.5.4") ≤ util_versioncode None)%Z →
     check_if_compatible g = Returned tt g).
Proof.
  split; [reflexivity|]. split; intros Hcode.
  - unfold scripting_init, check_if_compatible, min_surgescript_version.
    unfold mbind, M_bind, bind, emit, fatal_error.
    rewrite decide_True by exact Hcode. reflexivity.
  - unfold check_if_compatible, min_surgescript_version.
    rewrite decide_False by lia. reflexivity.
Qed.

Lemma land_lor_same a b : Z.land (Z.lor a b) b = b.
Proof.
  apply Z.bits_inj'. intros n _.
  rewrite Z.land_spec, Z.lor_spec.
  destruct (Z.testbit a n), (Z.testbit b n); reflexivity.
Qed.

(** C9. [compile_script] hands a file to the compiler with the parser set to
    the default flags when the asset filesystem calls the file primary, and to
    the defaults with the skip-duplicates flag added when it does not; either
    way the parser is back at the defaults when [compile_script] returns, so
    that over a whole enumeration the flags of each compilation depend on that
    file alone. *)
Theorem compile_script_parser_flags
    (ext : Collaborators) (g : globals) (v : surgescript_vm_t)
    (filepath : string) (files : list string) :
  vm g = Some v →
  (∃ success v0,
     vm_compile (with_parser_flags (script_flags filepath) v)
                (assetfs_fullpath filepath) = (success, v0)
     ∧ compile_script filepath g
       = Returned (if success then 0 else -1)%Z
           (mk_globals (Some (with_parser_flags SSPARSER_DEFAULTS v0))
              (vm_argv g) (vm_argc g) (test_mode g) (cached_ref g)
              (trace g ++ [surgescript_vm_compile (assetfs_fullpath filepath)
                             (script_flags filepath) success])))
  ∧ (assetfs_is_primary_file filepath = true →
     script_flags filepath = SSPARSER_DEFAULTS)
  ∧ (assetfs_is_primary_file filepath = false →
     script_flags filepath = Z.lor SSPARSER_DEFAULTS SSPARSER_SKIP_DUPLICATES
     ∧ Z.land (script_flags filepath) SSPARSER_SKIP_DUPLICATES
       = SSPARSER_SKIP_DUPLICATES)
  ∧ (∃ v' compiled,
       foreach_file files compile_script g
       = Returned tt (mk_globals (Some v') (vm_argv g) (vm_argc g) (test_mode g)
                        (cached_ref g) (trace g ++ compiled))
       ∧ Forall (is_compile_of files) compiled
       ∧ (compiled ≠ [] → vm_parser_flags v' = SSPARSER_DEFAULTS)).
Proof.
  intros Hv. split; [|split; [|split]].
  - destruct (vm_compile (with_parser_flags (script_flags filepath) v)
                (assetfs_fullpath filepath)) as [success v0] eqn:Hc.
    exists success, v0. split; [reflexivity|].
    rewrite (compile_script_spec g v filepath Hv), Hc. reflexivity.
  - unfold script_flags. intros ->. reflexivity.
  - unfold script_flags. intros ->. split; [reflexivity | apply land_lor_same].
  - destruct (foreach_compile_spec files g v Hv) as (v' & compiled & Hrun & Hall & Hflags & _).
    exists v', compiled. repeat split; assumption.
Qed.

(** C10 (as the code has it). The handle of the facade is cached in a static
    of the process, not of the session. A lookup resolves the facade exactly
    when the cached handle is null; once a handle is cached, every later
    lookup returns it without resolving anything, and [scripting_reload]
    leaves the cached handle as it is. *)
Theorem surgeengine_object_process_wide_cache
    (ext : Collaborators) (g : globals) (v : surgescript_vm_t) (o : object_t) :
  (cached_ref g = 0 →
   surgescript_objectmanager_get (vm_objectmanager v)
     (plugin_object (vm_objectmanager v) "SurgeEngine") = Some o →
   scripting_util_surgeengine_object v g
   = Returned (plugin_object (vm_objectmanager v) "SurgeEngine")
       (mk_globals (vm g) (vm_argv g) (vm_argc g) (test_mode g)
          (plugin_object (vm_objectmanager v) "SurgeEngine")
          (trace g ++ [surgescript_objectmanager_plugin_object "SurgeEngine"])))
  ∧ (cached_ref g ≠ 0 →
     surgescript_objectmanager_get (vm_objectmanager v) (cached_ref g) = Some o →
     scripting_util_surgeengine_object v g = Returned (cached_ref g) g)
  ∧ (∀ r g', scripting_reload g = Returned r g' → cached_ref g' = cached_ref g).
Proof.
  split; [|split].
  - intros Hnull Ho. unfold scripting_util_surgeengine_object.
    run_M. rewrite Hnull. simpl. rewrite Ho. reflexivity.
  - intros Hcached Ho. unfold scripting_util_surgeengine_object.
    run_M. rewrite decide_False by exact Hcached.
    simpl. rewrite Ho. destruct g; reflexivity.
  - intros r g' Hreload. apply (scripting_reload_keeps_statics _ _ _ Hreload).
Qed.

(** ** The results at the sample collaborators *)

Lemma compile_scripts_test_mode_witness :
  let ext := sample_collaborators 504 true sample_scripts in
  ∃ v1 compiled,
    assetfs_foreach_file "scripts" ".ss" compile_script sample_globals
    = Returned tt (mk_globals (Some v1) (vm_argv sample_globals)
                     (vm_argc sample_globals) (test_mode sample_globals)
                     (cached_ref sample_globals) (trace sample_globals ++ compiled))
    ∧ Forall (is_compile_of (assetfs_files "scripts" ".ss")) compiled
    ∧ (surgescript_programpool_exists (vm_programpool v1) "Application" "state:main"
         = true →
       compile_scripts sample_globals
       = Returned tt (mk_globals (Some v1) (vm_argv sample_globals)
                        (vm_argc sample_globals) true (cached_ref sample_globals)
                        (trace sample_globals ++ compiled
                           ++ [logfile_message "Got a test script..."])))
    ∧ (surgescript_programpool_exists (vm_programpool v1) "Application" "state:main"
         = false →
       compile_scripts sample_globals
       = Returned tt (mk_globals (Some (register "application" v1))
                        (vm_argv sample_globals) (vm_argc sample_globals) false
                        (cached_ref sample_globals)
                        (trace sample_globals ++ compiled
                           ++ [scripting_register "application"]))).
Proof.
  intros ext.
  apply (compile_scripts_test_mode ext sample_globals sample_vm).
  reflexivity.
Defined.

Lemma scripting_init_version_guard_witness :
  scripting_init (ext := sample_collaborators 503 true sample_scripts)
    1 ["opensurge"] initial_globals
  = Fatal ("This build requires at least SurgeScript " +:+ "0.5.4"
           +:+ " (using: " +:+ "0.5.3" +:+ ")")
      (mk_globals None None 0 false 0 [surgescript_util_set_error_functions])
  ∧ check_if_compatible (ext := sample_collaborators 504 true sample_scripts)
      initial_globals
    = Returned tt initial_globals.
Proof.
  split.
  - apply (proj1 (proj2 (scripting_init_version_guard
                           (sample_collaborators 503 true sample_scripts)
                           1 ["opensurge"] initial_globals))).
    simpl. lia.
  - apply (proj2 (proj2 (scripting_init_version_guard
                           (sample_collaborators 504 true sample_scripts)
                           1 ["opensurge"] initial_globals))).
    simpl. lia.
Defined.

Lemma scripting_reload_aborts_on_failed_reset_witness :
  scripting_reload (ext := sample_collaborators 504 false sample_scripts) sample_globals
  = Returned tt
      (mk_globals (Some (mk_vm empty_session ∅ 0)) (Some ["opensurge"]) 1 false 0
         [logfile_message "Reloading scripts...";
          surgescript_vm_reset false;
          logfile_message "Failed to reload the scripts"]).
Proof.
  apply (scripting_reload_aborts_on_failed_reset
           (sample_collaborators 504 false sample_scripts)
           sample_globals sample_vm (mk_vm empty_session ∅ 0)); reflexivity.
Defined.

Lemma compile_script_parser_flags_witness :
  let ext := sample_collaborators 504 true sample_scripts in
  (∃ success v0,
     vm_compile (with_parser_flags (script_flags "scripts/mod.ss") sample_vm)
                (assetfs_fullpath "scripts/mod.ss") = (success, v0)
     ∧ compile_script "scripts/mod.ss" sample_globals
       = Returned (if success then 0 else -1)%Z
           (mk_globals (Some (with_parser_flags SSPARSER_DEFAULTS v0))
              (vm_argv sample_globals) (vm_argc sample_globals)
              (test_mode sample_globals) (cached_ref sample_globals)
              (trace sample_globals
                 ++ [surgescript_vm_compile (assetfs_fullpath "scripts/mod.ss")
                       (script_flags "scripts/mod.ss") success])))
  ∧ (assetfs_is_primary_file "scripts/mod.ss" = true →
     script_flags "scripts/mod.ss" = SSPARSER_DEFAULTS)
  ∧ (assetfs_is_primary_file "scripts/mod.ss" = false →
     script_flags "scripts/mod.ss" = Z.lor SSPARSER_DEFAULTS SSPARSER_SKIP_DUPLICATES
     ∧ Z.land (script_flags "scripts/mod.ss") SSPARSER_SKIP_DUPLICATES
       = SSPARSER_SKIP_DUPLICATES)
  ∧ (∃ v' compiled,
       foreach_file sample_scripts compile_script sample_globals
       = Returned tt (mk_globals (Some v') (vm_argv sample_globals)
                        (vm_argc sample_globals) (test_mode sample_globals)
                        (cached_ref sample_globals) (trace sample_globals ++ compiled))
       ∧ Forall (is_compile_of sample_scripts) compiled
       ∧ (compiled ≠ [] → vm_parser_flags v' = SSPARSER_DEFAULTS)).
Proof.
  intros ext.
  apply (compile_script_parser_flags ext sample_globals sample_vm
           "scripts/mod.ss" sample_scripts).
  reflexivity.
Defined.

Lemma surgeengine_object_process_wide_cache_witness :
  let ext := sample_collaborators 504 true [] in
  scripting_util_surgeengine_object sample_vm sample_globals
  = Returned 2 sample_globals_after_lookup
  ∧ scripting_util_surgeengine_object sample_vm sample_globals_after_lookup
    = Returned 2 sample_globals_after_lookup
  ∧ cached_ref sample_globals_after_reload = cached_ref sample_globals_after_lookup.
Proof.
  intros ext.
  pose proof (surgeengine_object_process_wide_cache ext sample_globals sample_vm
                (mk_object "SurgeEngine" 1 [] None)) as (Hfirst & _ & _).
  pose proof (surgeengine_object_process_wide_cache ext sample_globals_after_lookup
                sample_vm (mk_object "SurgeEngine" 1 [] None)) as (_ & Hnext & Hreload).
  split; [exact (Hfirst eq_refl eq_refl)|].
  split; [apply Hnext; [discriminate | reflexivity]|].
  apply (Hreload tt). vm_compute. reflexivity.
Defined.

(** * Further properties *)

Local Open Scope R_scope.

Lemma set_world_position_result apply2dinverse fuel manager object P manager' :
  scripting_util_set_world_position apply2dinverse fuel manager object P = Some manager' →
  ∃ o p, surgescript_objectmanager_get manager object = Some o
         ∧ manager' = write_transform (set_position p)
                        (surgescript_object_transform manager object) object.
Proof.
  unfold scripting_util_set_world_position.
  destruct (surgescript_objectmanager_get manager object) as [o|] eqn:Ho; [|discriminate].
  simpl.
  match goal with |- context [mbind _ ?c] => destruct c as [[[p|] a]|] end;
    simpl; try discriminate.
  intros [= <-]. eauto.
Qed.

Lemma set_world_angle_result apply2dinverse fuel manager object A manager' :
  scripting_util_set_world_angle apply2dinverse fuel manager object A = Some manager' →
  ∃ o a, surgescript_objectmanager_get manager object = Some o
         ∧ manager' = write_transform (set_rotation_z a)
                        (surgescript_object_transform manager object) object.
Proof.
  unfold scripting_util_set_world_angle.
  destruct (surgescript_objectmanager_get manager object) as [o|] eqn:Ho; [|discriminate].
  simpl.
  match goal with |- context [mbind _ ?c] => destruct c as [[p [a|]]|] end;
    simpl; try discriminate.
  intros [= <-]. eauto.
Qed.

(** What a write through the transform pointer of [object] leaves alone. *)
Lemma write_transform_frame f manager object o :
  surgescript_objectmanager_get manager object = Some o →
  let manager' := write_transform f (surgescript_object_transform manager object) object in
  surgescript_objectmanager_root manager' = surgescript_objectmanager_root manager
  ∧ (∀ x, x ≠ object →
          surgescript_objectmanager_get manager' x = surgescript_objectmanager_get manager x)
  ∧ surgescript_objectmanager_get manager' object
    = Some (update_transform f (update_transform (λ t, t) o)).
Proof.
  intros Ho manager'. split; [reflexivity|]. split.
  - intros x Hx. unfold manager', surgescript_object_transform.
    rewrite !get_write_transform_ne by done. reflexivity.
  - unfold manager', surgescript_object_transform.
    apply get_write_transform_eq, get_write_transform_eq, Ho.
Qed.

(** X1. A call of [scripting_util_set_world_position] that returns has written
    the position of that one object and nothing else: the root and every other
    object are as before, and the object keeps its name, parent, children and
    rotation; from then on its transform counts as changed. *)
Theorem set_world_position_frame
    (apply2dinverse : transform_t → v2d_t → v2d_t) (fuel : nat)
    (manager manager' : objectmanager_t) (object : surgescript_objecthandle_t)
    (P : v2d_t) :
  scripting_util_set_world_position apply2dinverse fuel manager object P = Some manager' →
  surgescript_objectmanager_root manager' = surgescript_objectmanager_root manager
  ∧ (∀ x, x ≠ object →
          surgescript_objectmanager_get manager' x = surgescript_objectmanager_get manager x)
  ∧ ∃ o o', surgescript_objectmanager_get manager object = Some o
            ∧ surgescript_objectmanager_get manager' object = Some o'
            ∧ object_name o' = object_name o
            ∧ object_parent o' = object_parent o
            ∧ object_child o' = object_child o
            ∧ local_rotation o' = local_rotation o
            ∧ surgescript_object_transform_changed o' = true.
Proof.
  intros Hset.
  destruct (set_world_position_result _ _ _ _ _ _ Hset) as (o & p & Ho & ->).
  destruct (write_transform_frame (set_position p) manager object o Ho) as (Hr & Hx & Hobj).
  split; [exact Hr|]. split; [exact Hx|].
  exists o, (update_transform (set_position p) (update_transform (λ t, t) o)).
  split; [exact Ho|]. split; [exact Hobj|].
  repeat split.
Qed.

(** X2. A call of [scripting_util_set_world_angle] that returns has written
    the rotation of that one object and nothing else: the root and every other
    object are as before, and the object keeps its name, parent, children and
    local position. *)
Theorem set_world_angle_frame
    (apply2dinverse : transform_t → v2d_t → v2d_t) (fuel : nat)
    (manager manager' : objectmanager_t) (object : surgescript_objecthandle_t)
    (A : float) :
  scripting_util_set_world_angle apply2dinverse fuel manager object A = Some manager' →
  surgescript_objectmanager_root manager' = surgescript_objectmanager_root manager
  ∧ (∀ x, x ≠ object →
          surgescript_objectmanager_get manager' x = surgescript_objectmanager_get manager x)
  ∧ ∃ o o', surgescript_objectmanager_get manager object = Some o
            ∧ surgescript_objectmanager_get manager' object = Some o'
            ∧ object_name o' = object_name o
            ∧ object_parent o' = object_parent o
            ∧ object_child o' = object_child o
            ∧ local_position o' = local_position o
            ∧ surgescript_object_transform_changed o' = true.
Proof.
  intros Hset.
  destruct (set_world_angle_result _ _ _ _ _ _ Hset) as (o & a & Ho & ->).
  destruct (write_transform_frame (set_rotation_z a) manager object o Ho) as (Hr & Hx & Hobj).
  split; [exact Hr|]. split; [exact Hx|].
  exists o, (update_transform (set_rotation_z a) (update_transform (λ t, t) o)).
  split; [exact Ho|]. split; [exact Hobj|].
  repeat split.
Qed.

Lemma set_world_position_frame_witness :
  let manager' :=
    write_transform
      (set_position (compose_chain_inverse rigid_apply2dinverse
                       [sample_entity; sample_level; sample_root] (v2d_new 7 (-2))))
      (surgescript_object_transform sample_manager 4%nat) 4%nat in
  surgescript_objectmanager_root manager' = surgescript_objectmanager_root sample_manager
  ∧ (∀ x, x ≠ 4%nat →
          surgescript_objectmanager_get manager' x
          = surgescript_objectmanager_get sample_manager x)
  ∧ ∃ o o', surgescript_objectmanager_get sample_manager 4%nat = Some o
            ∧ surgescript_objectmanager_get manager' 4%nat = Some o'
            ∧ object_name o' = object_name o
            ∧ object_parent o' = object_parent o
            ∧ object_child o' = object_child o
            ∧ local_rotation o' = local_rotation o
            ∧ surgescript_object_transform_changed o' = true.
Proof.
  intros manager'.
  apply (set_world_position_frame rigid_apply2dinverse 3 sample_manager manager'
           4%nat (v2d_new 7 (-2))).
  reflexivity.
Defined.

Lemma set_world_angle_frame_witness :
  let manager' :=
    write_transform
      (set_rotation_z (fmod (subtract_chain [sample_entity; sample_level; sample_root] 10) 360))
      (surgescript_object_transform sample_manager 4%nat) 4%nat in
  surgescript_objectmanager_root manager' = surgescript_objectmanager_root sample_manager
  ∧ (∀ x, x ≠ 4%nat →
          surgescript_objectmanager_get manager' x
          = surgescript_objectmanager_get sample_manager x)
  ∧ ∃ o o', surgescript_objectmanager_get sample_manager 4%nat = Some o
            ∧ surgescript_objectmanager_get manager' 4%nat = Some o'
            ∧ object_name o' = object_name o
            ∧ object_parent o' = object_parent o
            ∧ object_child o' = object_child o
            ∧ local_position o' = local_position o
            ∧ surgescript_object_transform_changed o' = true.
Proof.
  intros manager'.
  apply (set_world_angle_frame rigid_apply2dinverse 3 sample_manager manager'
           4%nat 10).
  reflexivity.
Defined.

(** How the two mutations come out on a well-formed chain. *)
Lemma set_world_position_on_chain apply2dinverse manager object l fuel P :
  ancestor_chain manager object l →
  (length l ≤ fuel)%nat →
  scripting_util_set_world_position apply2dinverse fuel manager object P
  = Some (write_transform (set_position (compose_chain_inverse apply2dinverse l P))
            (surgescript_object_transform manager object) object).
Proof.
  intros Hc Hlen.
  destruct (ancestor_chain_is_Some _ _ _ Hc) as [o Ho].
  set (manager1 := surgescript_object_transform manager object).
  assert (Hc1 : ancestor_chain manager1 object l)
    by (apply ancestor_chain_write_self, Hc).
  assert (Ho1 : surgescript_objectmanager_get manager1 object
                = Some (update_transform (λ t, t) o))
    by (apply get_write_transform_eq, Ho).
  unfold scripting_util_set_world_position. rewrite Ho. simpl. fold manager1.
  pose proof (world2local_from_parent apply2dinverse manager1 object _ l fuel
                (Some P) None Ho1 Hc1 Hlen) as Hw.
  simpl in Hw. unfold surgescript_objectmanager_root, surgescript_object_parent in *.
  simpl in Hw. rewrite Hw. reflexivity.
Qed.

Lemma set_world_angle_on_chain apply2dinverse manager object l fuel A :
  ancestor_chain manager object l →
  (length l ≤ fuel)%nat →
  scripting_util_set_world_angle apply2dinverse fuel manager object A
  = Some (write_transform (set_rotation_z (fmod (A - rotation_sum l) 360))
            (surgescript_object_transform manager object) object).
Proof.
  intros Hc Hlen.
  destruct (ancestor_chain_is_Some _ _ _ Hc) as [o Ho].
  set (manager1 := surgescript_object_transform manager object).
  assert (Hc1 : ancestor_chain manager1 object l)
    by (apply ancestor_chain_write_self, Hc).
  assert (Ho1 : surgescript_objectmanager_get manager1 object
                = Some (update_transform (λ t, t) o))
    by (apply get_write_transform_eq, Ho).
  unfold scripting_util_set_world_angle. rewrite Ho. simpl. fold manager1.
  pose proof (world2local_from_parent apply2dinverse manager1 object _ l fuel
                None (Some A) Ho1 Hc1 Hlen) as Hw.
  simpl in Hw. unfold surgescript_objectmanager_root, surgescript_object_parent in *.
  simpl in Hw. rewrite Hw. simpl. rewrite subtract_chain_sum. reflexivity.
Qed.

Lemma ancestor_chain_written f manager object l :
  ancestor_chain manager object l →
  ancestor_chain (write_transform f (surgescript_object_transform manager object) object)
    object l.
Proof. intros Hc. apply ancestor_chain_write_self, ancestor_chain_write_self, Hc. Qed.

(** X3. Turning an object does not move it: after
    [scripting_util_set_world_angle] the world position of the object is what
    it was. *)
Theorem set_world_angle_keeps_world_position
    (apply2d apply2dinverse : transform_t → v2d_t → v2d_t)
    (manager : objectmanager_t) (object : surgescript_objecthandle_t)
    (l : list object_t) (fuel : nat) (A : float) :
  ancestor_chain manager object l →
  (length l ≤ fuel)%nat →
  ∃ manager',
    scripting_util_set_world_angle apply2dinverse fuel manager object A = Some manager'
    ∧ scripting_util_world_position apply2d fuel manager' object
      = scripting_util_world_position apply2d fuel manager object
    ∧ is_Some (scripting_util_world_position apply2d fuel manager object).
Proof.
  intros Hc Hlen.
  destruct (ancestor_chain_is_Some _ _ _ Hc) as [o Ho].
  eexists. split; [apply (set_world_angle_on_chain _ _ _ l); assumption|].
  set (a := fmod _ _).
  destruct (write_transform_frame (set_rotation_z a) manager object o Ho) as (_ & _ & Ho').
  pose proof (ancestor_chain_written (set_rotation_z a) manager object l Hc) as Hc'.
  unfold scripting_util_world_position. rewrite Ho, Ho'. simpl.
  rewrite (world_position_loop_chain apply2d _ _ _ Hc') by first [exact Ho' | exact Hlen].
  rewrite (world_position_loop_chain apply2d _ _ _ Hc) by first [exact Ho | exact Hlen].
  split; [reflexivity | eexists; reflexivity].
Qed.

(** X4. Moving an object does not turn it: after
    [scripting_util_set_world_position] the world angle of the object is what
    it was. *)
Theorem set_world_position_keeps_world_angle
    (apply2dinverse : transform_t → v2d_t → v2d_t)
    (manager : objectmanager_t) (object : surgescript_objecthandle_t)
    (l : list object_t) (fuel : nat) (P : v2d_t) :
  root_is_own_parent manager →
  ancestor_chain manager object l →
  (length l ≤ fuel)%nat →
  ∃ manager',
    scripting_util_set_world_position apply2dinverse fuel manager object P = Some manager'
    ∧ scripting_util_world_angle (S fuel) manager' object
      = scripting_util_world_angle (S fuel) manager object
    ∧ is_Some (scripting_util_world_angle (S fuel) manager object).
Proof.
  intros Hroot Hc Hlen.
  destruct (ancestor_chain_is_Some _ _ _ Hc) as [o Ho].
  eexists. split; [apply (set_world_position_on_chain _ _ _ l); assumption|].
  set (p := compose_chain_inverse _ _ _).
  destruct (write_transform_frame (set_position p) manager object o Ho) as (_ & _ & Ho').
  pose proof (ancestor_chain_written (set_position p) manager object l Hc) as Hc'.
  unfold surgescript_object_transform in *.
  rewrite (world_angle_chain _ _ l (root_is_own_parent_write _ _ _
             (root_is_own_parent_write _ _ _ Hroot)) Hc' (S fuel) _ Ho') by lia.
  rewrite (world_angle_chain _ _ l Hroot Hc (S fuel) _ Ho) by lia.
  split; [reflexivity | eexists; reflexivity].
Qed.

Lemma write_transform_ext f g manager object :
  (∀ t, f t = g t) → write_transform f manager object = write_transform g manager object.
Proof.
  intros Hfg. unfold write_transform. f_equal. apply alter_ext. intros o _.
  unfold update_transform. rewrite Hfg. reflexivity.
Qed.

(** X5. The last teleport wins: setting the world position to [P] and then to
    [Q] leaves the manager exactly as setting it to [Q] alone does; in
    particular the operation is idempotent. *)
Theorem set_world_position_last_wins
    (apply2dinverse : transform_t → v2d_t → v2d_t)
    (manager : objectmanager_t) (object : surgescript_objecthandle_t)
    (l : list object_t) (fuel : nat) (P Q : v2d_t) :
  ancestor_chain manager object l →
  (length l ≤ fuel)%nat →
  ∃ manager1 manager2,
    scripting_util_set_world_position apply2dinverse fuel manager object P = Some manager1
    ∧ scripting_util_set_world_position apply2dinverse fuel manager1 object Q = Some manager2
    ∧ scripting_util_set_world_position apply2dinverse fuel manager object Q = Some manager2.
Proof.
  intros Hc Hlen. eexists _, _.
  split; [apply (set_world_position_on_chain _ _ _ l); assumption|].
  split; [|apply (set_world_position_on_chain _ _ _ l); assumption].
  rewrite (set_world_position_on_chain _ _ _ l) by
    first [apply ancestor_chain_written; exact Hc | exact Hlen].
  f_equal. unfold surgescript_object_transform.
  rewrite !write_transform_twice. apply write_transform_ext. reflexivity.
Qed.

(** X6. The last reorientation wins: setting the world angle to [A] and then
    to [B] leaves the manager exactly as setting it to [B] alone does. *)
Theorem set_world_angle_last_wins
    (apply2dinverse : transform_t → v2d_t → v2d_t)
    (manager : objectmanager_t) (object : surgescript_objecthandle_t)
    (l : list object_t) (fuel : nat) (A B : float) :
  ancestor_chain manager object l →
  (length l ≤ fuel)%nat →
  ∃ manager1 manager2,
    scripting_util_set_world_angle apply2dinverse fuel manager object A = Some manager1
    ∧ scripting_util_set_world_angle apply2dinverse fuel manager1 object B = Some manager2
    ∧ scripting_util_set_world_angle apply2dinverse fuel manager object B = Some manager2.
Proof.
  intros Hc Hlen. eexists _, _.
  split; [apply (set_world_angle_on_chain _ _ _ l); assumption|].
  split; [|apply (set_world_angle_on_chain _ _ _ l); assumption].
  rewrite (set_world_angle_on_chain _ _ _ l) by
    first [apply ancestor_chain_written; exact Hc | exact Hlen].
  f_equal. unfold surgescript_object_transform.
  rewrite !write_transform_twice. apply write_transform_ext. reflexivity.
Qed.

Lemma compose_chain_inverse_cancel apply2d apply2dinverse l p :
  (∀ t q, apply2dinverse t (apply2d t q) = q) →
  compose_chain_inverse apply2dinverse l (compose_chain apply2d l p) = p.
Proof.
  intros Hinv. unfold compose_chain, compose_chain_inverse.
  revert p. induction l as [|a l IH]; intros p; simpl; [reflexivity|].
  rewrite fold_left_app. simpl. rewrite IH. apply Hinv.
Qed.

(** X7. Teleporting an object to the world position it already has keeps its
    local position, provided the inverse transformation of the runtime undoes
    the forward one. *)
Theorem set_world_position_to_current_position
    (apply2d apply2dinverse : transform_t → v2d_t → v2d_t)
    (manager : objectmanager_t) (object : surgescript_objecthandle_t)
    (o : object_t) (l : list object_t) (fuel : nat) :
  (∀ t p, apply2dinverse t (apply2d t p) = p) →
  (∀ p, apply2d transform_identity p = p) →
  surgescript_objectmanager_get manager object = Some o →
  ancestor_chain manager object l →
  (length l ≤ fuel)%nat →
  ∃ W manager' o',
    scripting_util_world_position apply2d fuel manager object = Some W
    ∧ scripting_util_set_world_position apply2dinverse fuel manager object W = Some manager'
    ∧ surgescript_objectmanager_get manager' object = Some o'
    ∧ local_position o' = local_position o.
Proof.
  intros Hinv Hid Ho Hc Hlen.
  exists (compose_chain apply2d l (local_position o)). eexists _, _.
  split; [apply (world_position_compose apply2d Hid); assumption|].
  split; [apply (set_world_position_on_chain _ _ _ l); assumption|].
  split.
  - apply write_transform_frame, Ho.
  - rewrite compose_chain_inverse_cancel by exact Hinv.
    unfold local_position. simpl. reflexivity.
Qed.

Lemma rigid_apply2dinverse_apply t p : rigid_apply2dinverse t (rigid_apply2d t p) = p.
Proof.
  destruct p as [x y]. unfold rigid_apply2d, rigid_apply2dinverse. simpl.
  pose proof (sin2_cos2 (deg2rad (rotation_z t))) as H. unfold Rsqr in H.
  set (c := cos _) in *. set (s := sin _) in *.
  f_equal.
  - transitivity (x * (s * s + c * c)); [ring|]. rewrite H. ring.
  - transitivity (y * (s * s + c * c)); [ring|]. rewrite H. ring.
Qed.

Lemma world_position_loop_off_the_tree apply2d manager stuck :
  off_the_tree manager stuck →
  ∀ fuel h o wp,
    stuck h → surgescript_objectmanager_get manager h = Some o →
    world_position_loop apply2d fuel manager
      (surgescript_objectmanager_root manager) h o wp = None.
Proof.
  intros Hoff. induction fuel as [|fuel IH]; intros h o wp Hh Ho;
    destruct (Hoff h Hh) as (Hne & o' & Ho' & Hp); simpl;
    rewrite decide_False by exact Hne; [reflexivity|].
  rewrite Ho in Ho'. injection Ho' as <-.
  destruct (Hoff _ Hp) as (_ & p & Hgp & _).
  rewrite Hgp. simpl. apply IH; assumption.
Qed.

Lemma world2local_off_the_tree apply2dinverse manager stuck :
  off_the_tree manager stuck →
  ∀ fuel h position angle,
    stuck h →
    world2local apply2dinverse fuel manager h
      (surgescript_objectmanager_root manager) position angle = None.
Proof.
  intros Hoff. induction fuel as [|fuel IH]; intros h position angle Hh;
    [reflexivity|].
  destruct (Hoff h Hh) as (Hne & o & Ho & Hp). simpl. rewrite Ho. simpl.
  rewrite decide_True by exact Hne.
  rewrite IH by exact Hp. reflexivity.
Qed.

Lemma off_the_tree_write f manager object stuck :
  off_the_tree manager stuck →
  off_the_tree (write_transform f manager object) stuck.
Proof.
  intros Hoff h Hh. destruct (Hoff h Hh) as (Hne & o & Ho & Hp).
  split; [exact Hne|].
  rewrite get_write_transform. case_decide as Hd.
  - rewrite Ho. simpl. eexists. split; [reflexivity | exact Hp].
  - exists o. split; [exact Ho | exact Hp].
Qed.

(** X8. The walks have no guard against a parent chain that misses the root:
    from an object whose ancestors never include the designated root (a cycle
    of parents, or an object other than the root that is its own parent) the
    world position query and both mutations come back with no result, however
    long they are run. *)
Theorem walks_never_end_off_the_tree
    (apply2d apply2dinverse : transform_t → v2d_t → v2d_t)
    (manager : objectmanager_t) (stuck : surgescript_objecthandle_t → Prop)
    (object : surgescript_objecthandle_t) (P : v2d_t) (A : float) (fuel : nat) :
  off_the_tree manager stuck →
  stuck object →
  scripting_util_world_position apply2d fuel manager object = None
  ∧ scripting_util_set_world_position apply2dinverse fuel manager object P = None
  ∧ scripting_util_set_world_angle apply2dinverse fuel manager object A = None.
Proof.
  intros Hoff Hobj. destruct (Hoff object Hobj) as (Hne & o & Ho & Hp).
  pose proof (off_the_tree_write (λ t, t) manager object stuck Hoff) as Hoff1.
  split; [|split].
  - unfold scripting_util_world_position. rewrite Ho. simpl.
    apply (world_position_loop_off_the_tree apply2d manager stuck Hoff); assumption.
  - unfold scripting_util_set_world_position. rewrite Ho. simpl.
    rewrite decide_True by exact Hne.
    unfold surgescript_object_transform.
    rewrite (world2local_off_the_tree apply2dinverse _ stuck Hoff1) by exact Hp.
    reflexivity.
  - unfold scripting_util_set_world_angle. rewrite Ho. simpl.
    rewrite decide_True by exact Hne.
    unfold surgescript_object_transform.
    rewrite (world2local_off_the_tree apply2dinverse _ stuck Hoff1) by exact Hp.
    reflexivity.
Qed.

Lemma looped_manager_off_the_tree :
  off_the_tree looped_manager (λ h, h = 2%nat ∨ h = 3%nat).
Proof.
  intros h [-> | ->]; (split; [discriminate|]); eexists;
    (split; [reflexivity|]); simpl; auto.
Qed.

Lemma walks_never_end_off_the_tree_witness :
  scripting_util_world_position rigid_apply2d 100 looped_manager 2%nat = None
  ∧ scripting_util_set_world_position rigid_apply2dinverse 100 looped_manager 2%nat
      (v2d_new 1 1) = None
  ∧ scripting_util_set_world_angle rigid_apply2dinverse 100 looped_manager 2%nat 90
    = None.
Proof.
  apply (walks_never_end_off_the_tree rigid_apply2d rigid_apply2dinverse
           looped_manager (λ h, h = 2%nat ∨ h = 3%nat) 2%nat (v2d_new 1 1) 90 100%nat).
  - exact looped_manager_off_the_tree.
  - left. reflexivity.
Defined.

Lemma sample_manager_root_is_own_parent : root_is_own_parent sample_manager.
Proof. intros r [= <-]. reflexivity. Qed.

Lemma set_world_angle_keeps_world_position_witness :
  ∃ manager',
    scripting_util_set_world_angle rigid_apply2dinverse 3 sample_manager 4%nat 10
      = Some manager'
    ∧ scripting_util_world_position rigid_apply2d 3 manager' 4%nat
      = scripting_util_world_position rigid_apply2d 3 sample_manager 4%nat
    ∧ is_Some (scripting_util_world_position rigid_apply2d 3 sample_manager 4%nat).
Proof.
  apply (set_world_angle_keeps_world_position rigid_apply2d rigid_apply2dinverse
           sample_manager 4%nat [sample_entity; sample_level; sample_root] 3%nat 10).
  - exact sample_manager_chain.
  - simpl. lia.
Defined.

Lemma set_world_position_keeps_world_angle_witness :
  ∃ manager',
    scripting_util_set_world_position rigid_apply2dinverse 3 sample_manager 4%nat
        (v2d_new 7 (-2)) = Some manager'
    ∧ scripting_util_world_angle 4 manager' 4%nat
      = scripting_util_world_angle 4 sample_manager 4%nat
    ∧ is_Some (scripting_util_world_angle 4 sample_manager 4%nat).
Proof.
  apply (set_world_position_keeps_world_angle rigid_apply2dinverse
           sample_manager 4%nat [sample_entity; sample_level; sample_root] 3%nat
           (v2d_new 7 (-2))).
  - exact sample_manager_root_is_own_parent.
  - exact sample_manager_chain.
  - simpl. lia.
Defined.

Lemma set_world_position_last_wins_witness :
  ∃ manager1 manager2,
    scripting_util_set_world_position rigid_apply2dinverse 3 sample_manager 4%nat
        (v2d_new 7 (-2)) = Some manager1
    ∧ scripting_util_set_world_position rigid_apply2dinverse 3 manager1 4%nat
        (v2d_new 0 5) = Some manager2
    ∧ scripting_util_set_world_position rigid_apply2dinverse 3 sample_manager 4%nat
        (v2d_new 0 5) = Some manager2.
Proof.
  apply (set_world_position_last_wins rigid_apply2dinverse
           sample_manager 4%nat [sample_entity; sample_level; sample_root] 3%nat
           (v2d_new 7 (-2)) (v2d_new 0 5)).
  - exact sample_manager_chain.
  - simpl. lia.
Defined.

Lemma set_world_angle_last_wins_witness :
  ∃ manager1 manager2,
    scripting_util_set_world_angle rigid_apply2dinverse 3 sample_manager 4%nat 10
      = Some manager1
    ∧ scripting_util_set_world_angle rigid_apply2dinverse 3 manager1 4%nat (-200)
      = Some manager2
    ∧ scripting_util_set_world_angle rigid_apply2dinverse 3 sample_manager 4%nat (-200)
      = Some manager2.
Proof.
  apply (set_world_angle_last_wins rigid_apply2dinverse
           sample_manager 4%nat [sample_entity; sample_level; sample_root] 3%nat
           10 (-200)).
  - exact sample_manager_chain.
  - simpl. lia.
Defined.

Lemma set_world_position_to_current_position_witness :
  ∃ W manager' o',
    scripting_util_world_position rigid_apply2d 3 sample_manager 3%nat = Some W
    ∧ scripting_util_set_world_position rigid_apply2dinverse 3 sample_manager 3%nat W
      = Some manager'
    ∧ surgescript_objectmanager_get manager' 3%nat = Some o'
    ∧ local_position o' = local_position sample_entity.
Proof.
  apply (set_world_position_to_current_position rigid_apply2d rigid_apply2dinverse
           sample_manager 3%nat sample_entity [sample_level; sample_root] 3%nat).
  - exact rigid_apply2dinverse_apply.
  - exact rigid_apply2d_identity.
  - reflexivity.
  - eapply (chain_step _ 3%nat sample_entity); [done | reflexivity | reflexivity |].
    eapply (chain_step _ 2%nat sample_level); [done | reflexivity | reflexivity |].
    apply chain_root; [reflexivity | eexists; reflexivity].
  - simpl. lia.
Defined.

Local Close Scope R_scope.

Lemma extends_refl manager : extends manager manager.
Proof.
  split; [reflexivity|]. intros x o Ho. exists o.
  repeat split; try assumption. exists []. rewrite app_nil_r. reflexivity.
Qed.

Lemma spawn_lookup constructed manager ph parent name h manager1 :
  surgescript_objectmanager_get manager ph = Some parent →
  surgescript_objectmanager_spawn constructed manager ph name = Some (h, manager1) →
  h = new_handle manager
  ∧ surgescript_objectmanager_root manager1 = surgescript_objectmanager_root manager
  ∧ surgescript_objectmanager_get manager1 h = Some (new_object constructed manager ph name)
  ∧ surgescript_objectmanager_get manager1 ph = Some (add_child h parent)
  ∧ ∀ x, x ≠ h → x ≠ ph →
         surgescript_objectmanager_get manager1 x = surgescript_objectmanager_get manager x.
Proof.
  intros Hp. unfold surgescript_objectmanager_spawn. rewrite Hp. simpl.
  intros [= <- <-].
  destruct (new_handle_fresh manager) as [_ Hnone].
  assert (Hne : new_handle manager ≠ ph) by (intros Heq; rewrite Heq in Hnone; congruence).
  unfold surgescript_objectmanager_get in *. simpl.
  split; [reflexivity|]. split; [reflexivity|].
  split; [apply lookup_insert_eq|].
  split; [rewrite lookup_insert_ne by done; apply lookup_insert_eq|].
  intros x Hx1 Hx2. rewrite !lookup_insert_ne by done. reflexivity.
Qed.

Lemma spawn_extends constructed manager ph parent name h manager1 :
  surgescript_objectmanager_get manager ph = Some parent →
  surgescript_objectmanager_spawn constructed manager ph name = Some (h, manager1) →
  extends manager manager1.
Proof.
  intros Hp Hs.
  destruct (spawn_lookup _ _ _ _ _ _ _ Hp Hs) as (Hh & Hroot & Hgh & Hgp & Hother).
  destruct (new_handle_fresh manager) as [_ Hnone]. rewrite <- Hh in Hnone.
  split; [exact Hroot|]. intros x o Ho.
  destruct (decide (x = ph)) as [->|Hne].
  - rewrite Hp in Ho. injection Ho as <-.
    exists (add_child h parent). split; [exact Hgp|].
    repeat split. exists [h]. reflexivity.
  - exists o. rewrite Hother by (try exact Hne; intros ->; congruence).
    repeat split; try assumption. exists []. rewrite app_nil_r. reflexivity.
Qed.

(** The two ways [scripting_util_require_component] returns. *)
Lemma require_component_cases constructed manager object name h manager1 :
  scripting_util_require_component constructed manager object name = Some (h, manager1) →
  ∃ o parent component,
    surgescript_objectmanager_get manager object = Some o
    ∧ surgescript_objectmanager_get manager (surgescript_object_parent o) = Some parent
    ∧ surgescript_object_child manager parent name = Some component
    ∧ ((component ≠ surgescript_objectmanager_null manager
        ∧ h = component ∧ manager1 = manager)
       ∨ (component = surgescript_objectmanager_null manager
          ∧ surgescript_objectmanager_spawn constructed manager (surgescript_object_parent o) name
            = Some (h, manager1))).
Proof.
  unfold scripting_util_require_component.
  destruct (surgescript_objectmanager_get manager object) as [o|] eqn:Ho; [|discriminate].
  simpl.
  destruct (surgescript_objectmanager_get manager (surgescript_object_parent o))
    as [parent|] eqn:Hp; [|discriminate].
  simpl.
  destruct (surgescript_object_child manager parent name) as [component|] eqn:Hc;
    [|discriminate].
  simpl. intros Hres. exists o, parent, component.
  repeat (split; [first [reflexivity | assumption]|]).
  case_decide as Hd.
  - right. split; assumption.
  - left. injection Hres as <- <-. repeat split. exact Hd.
Qed.


Lemma extends_peek o o' :
  object_transform_ptr o' = object_transform_ptr o →
  surgescript_object_peek_transform o' = surgescript_object_peek_transform o
  ∧ surgescript_object_transform_changed o' = surgescript_object_transform_changed o.
Proof.
  unfold surgescript_object_peek_transform, surgescript_object_transform_changed.
  intros ->. split; reflexivity.
Qed.

Lemma world_position_loop_extends apply2d manager manager' :
  extends manager manager' →
  ∀ fuel h o o' wp p,
    surgescript_object_parent o' = surgescript_object_parent o →
    world_position_loop apply2d fuel manager
      (surgescript_objectmanager_root manager) h o wp = Some p →
    world_position_loop apply2d fuel manager'
      (surgescript_objectmanager_root manager') h o' wp = Some p.
Proof.
  intros [Hroot Hext]. rewrite Hroot.
  induction fuel as [|fuel IH]; intros h o o' wp p Hpar; simpl;
    case_decide as Hd; try done.
  rewrite Hpar.
  destruct (surgescript_objectmanager_get manager (surgescript_object_parent o))
    as [po|] eqn:Hpo; [|discriminate].
  destruct (Hext _ _ Hpo) as (po' & Hpo' & _ & Hpp & Hpt & _).
  rewrite Hpo'. simpl.
  destruct (extends_peek po po' Hpt) as [-> ->].
  apply IH. exact Hpp.
Qed.

Lemma world_position_extends apply2d manager manager' fuel x p :
  extends manager manager' →
  scripting_util_world_position apply2d fuel manager x = Some p →
  scripting_util_world_position apply2d fuel manager' x = Some p.
Proof.
  intros Hext. unfold scripting_util_world_position.
  destruct (surgescript_objectmanager_get manager x) as [o|] eqn:Ho; [|discriminate].
  destruct (proj2 Hext _ _ Ho) as (o' & Ho' & _ & Hpar & Htr & _).
  rewrite Ho'. simpl.
  destruct (extends_peek o o' Htr) as [-> _].
  apply (world_position_loop_extends apply2d manager manager' Hext). exact Hpar.
Qed.

Lemma world_angle_extends manager manager' :
  extends manager manager' →
  ∀ fuel x a,
    scripting_util_world_angle fuel manager x = Some a →
    scripting_util_world_angle fuel manager' x = Some a.
Proof.
  intros [Hroot Hext]. induction fuel as [|fuel IH]; intros x a; simpl; [done|].
  destruct (surgescript_objectmanager_get manager x) as [o|] eqn:Ho; [|discriminate].
  destruct (Hext _ _ Ho) as (o' & Ho' & _ & Hpar & Htr & _).
  rewrite Ho'. simpl.
  unfold surgescript_object_parent in *. rewrite Hpar.
  destruct (surgescript_objectmanager_get manager (object_parent o)) as [po|] eqn:Hpo;
    [|discriminate].
  destruct (Hext _ _ Hpo) as (po' & Hpo' & _). rewrite Hpo'. simpl.
  destruct (extends_peek o o' Htr) as [-> _].
  case_decide as Hd; [|done].
  destruct (scripting_util_world_angle fuel manager (object_parent o)) as [pa|] eqn:Hpa;
    [|discriminate].
  rewrite (IH _ _ Hpa). done.
Qed.

(** X10. [scripting_util_require_component] moves nothing: whatever world
    position or world angle an object had before the call, it has after it. *)
Theorem require_component_moves_nothing
    (constructed : constructor_t)
    (apply2d : transform_t → v2d_t → v2d_t)
    (manager manager1 : objectmanager_t) (object h x : surgescript_objecthandle_t)
    (name : string) (fuel : nat) :
  scripting_util_require_component constructed manager object name = Some (h, manager1) →
  (∀ p, scripting_util_world_position apply2d fuel manager x = Some p →
        scripting_util_world_position apply2d fuel manager1 x = Some p)
  ∧ (∀ a, scripting_util_world_angle fuel manager x = Some a →
          scripting_util_world_angle fuel manager1 x = Some a).
Proof.
  intros Hreq.
  assert (Hext : extends manager manager1).
  { destruct (require_component_cases _ _ _ _ _ _ Hreq)
      as (o & parent & component & Ho & Hp & Hc & [(Hne & -> & ->) | (-> & Hs)]).
    - apply extends_refl.
    - eapply spawn_extends; eassumption. }
  split.
  - intros p. apply world_position_extends, Hext.
  - intros a. apply world_angle_extends, Hext.
Qed.

Lemma require_component_moves_nothing_witness :
  ∃ h manager1,
    scripting_util_require_component bare_objects sample_manager 4 "Camera" = Some (h, manager1)
    ∧ (∀ p, scripting_util_world_position rigid_apply2d 3 sample_manager 4 = Some p →
            scripting_util_world_position rigid_apply2d 3 manager1 4 = Some p)
    ∧ (∀ a, scripting_util_world_angle 4 sample_manager 4 = Some a →
            scripting_util_world_angle 4 manager1 4 = Some a).
Proof.
  destruct (scripting_util_require_component bare_objects sample_manager 4 "Camera")
    as [[h manager1]|] eqn:Hreq; [|vm_compute in Hreq; discriminate].
  exists h, manager1. split; [reflexivity|].
  split.
  - apply (proj1 (require_component_moves_nothing bare_objects rigid_apply2d sample_manager manager1
                    4 h 4 "Camera" 3 Hreq)).
  - apply (proj2 (require_component_moves_nothing bare_objects rigid_apply2d sample_manager manager1
                    4 h 4 "Camera" 4 Hreq)).
Defined.


(** X11. An object that was never moved nor turned sits where its parent is:
    when its local position is the origin and its local rotation is zero, as
    they are for a transform that was never touched, its world angle is the
    world angle of its parent and its world position is the world position of
    its parent, given that the runtime sends the origin to the position of the
    transform it applies. *)
Theorem object_at_origin_sits_at_parent
    (apply2d : transform_t → v2d_t → v2d_t)
    (manager : objectmanager_t) (object : surgescript_objecthandle_t)
    (o parent : object_t) (fuel : nat) :
  (∀ t, apply2d t (v2d_new 0 0) = v2d_new (position_x t) (position_y t)) →
  surgescript_objectmanager_get manager object = Some o →
  object ≠ surgescript_objectmanager_root manager →
  surgescript_objectmanager_get manager (surgescript_object_parent o) = Some parent →
  local_position o = v2d_new 0 0 →
  local_rotation o = 0%R →
  (∀ a, scripting_util_world_angle fuel manager (surgescript_object_parent o) = Some a →
        scripting_util_world_angle (S fuel) manager object = Some a)
  ∧ (∀ p, scripting_util_world_position apply2d fuel manager
            (surgescript_object_parent o) = Some p →
          scripting_util_world_position apply2d (S fuel) manager object = Some p).
Proof.
  intros Horigin Ho Hnotroot Hp Hpos Hrot.
  set (ph := surgescript_object_parent o) in *.
  unfold local_rotation in Hrot. unfold local_position in Hpos.
  split.
  - intros a Ha. simpl. rewrite Ho. simpl. fold ph. rewrite Hp. simpl.
    rewrite Hrot.
    destruct (decide (ph ≠ object)) as [Hne|Heq].
    + rewrite Ha. simpl. f_equal. lra.
    + assert (Hsame : ph = object) by (destruct (decide (ph = object)); [assumption|contradiction]).
      destruct fuel as [|fuel]; [discriminate|].
      simpl in Ha. rewrite Hsame, Ho in Ha. simpl in Ha. fold ph in Ha.
      rewrite Hsame, Ho in Ha. simpl in Ha.
      rewrite decide_False in Ha by (intros Hc; apply Hc; reflexivity).
      simpl in Ha. rewrite Hrot in Ha. simpl. exact Ha.
  - intros p Hwp. unfold scripting_util_world_position in *.
    rewrite Ho. rewrite Hp in Hwp. simpl in *. rewrite Hpos.
    rewrite decide_False by exact Hnotroot.
    fold ph. rewrite Hp. simpl. rewrite <- Hwp. f_equal.
    unfold surgescript_object_transform_changed, surgescript_object_peek_transform.
    destruct (object_transform_ptr parent) as [t|]; simpl.
    + apply Horigin.
    + reflexivity.
Qed.

(** X12. Siblings share their components: when two objects have the same
    parent, the second one to require a component of a given name gets the
    handle the first one got, and nothing is spawned for it. *)
Theorem require_component_shared_by_siblings
    (constructed : constructor_t)
    (manager : objectmanager_t) (object1 object2 : surgescript_objecthandle_t)
    (o1 o2 parent : object_t) (name : string)
    (component : surgescript_objecthandle_t) :
  surgescript_objectmanager_get manager (surgescript_objectmanager_null manager) = None →
  surgescript_objectmanager_get manager object1 = Some o1 →
  surgescript_objectmanager_get manager object2 = Some o2 →
  surgescript_object_parent o2 = surgescript_object_parent o1 →
  surgescript_objectmanager_get manager (surgescript_object_parent o1) = Some parent →
  surgescript_object_child manager parent name = Some component →
  ∃ h manager1,
    scripting_util_require_component constructed manager object1 name = Some (h, manager1)
    ∧ scripting_util_require_component constructed manager1 object2 name = Some (h, manager1).
Proof.
  intros Hnull Ho1 Ho2 Hsame Hp Hchild.
  set (ph := surgescript_object_parent o1) in *.
  assert (Hcall : ∀ m object o,
            surgescript_objectmanager_get m object = Some o →
            surgescript_object_parent o = ph →
            ∀ par c, surgescript_objectmanager_get m ph = Some par →
                     surgescript_object_child m par name = Some c →
            scripting_util_require_component constructed m object name
            = if decide (c = surgescript_objectmanager_null m)
              then surgescript_objectmanager_spawn constructed m ph name
              else Some (c, m)).
  { intros m object o Hobj Hpar par c Hgp Hc.
    unfold scripting_util_require_component.
    rewrite Hobj. simpl. rewrite Hpar, Hgp. simpl. rewrite Hc. reflexivity. }
  destruct (decide (component = surgescript_objectmanager_null manager)) as [->|Hc].
  - destruct (surgescript_objectmanager_spawn constructed manager ph name) as [[h manager1]|] eqn:Hs;
      [|unfold surgescript_objectmanager_spawn in Hs; rewrite Hp in Hs; discriminate].
    exists h, manager1.
    destruct (spawn_lookup _ _ _ _ _ _ _ Hp Hs) as (Hh & Hroot & Hgh & Hgp & Hother).
    destruct (proj2 (spawn_extends _ _ _ _ _ _ _ Hp Hs) _ _ Ho2)
      as (o2' & Ho2' & _ & Hpar2 & _).
    destruct (new_handle_fresh manager) as [Hh0 Hnone]. rewrite <- Hh in Hh0, Hnone.
    pose proof (find_child_none manager _ name Hnull Hchild) as Hnonamed.
    split.
    + rewrite (Hcall manager object1 o1 Ho1 eq_refl parent _ Hp Hchild).
      rewrite decide_True by reflexivity. exact Hs.
    + rewrite (Hcall manager1 object2 o2' Ho2'
                 ltac:(unfold surgescript_object_parent in *; congruence)
                 (add_child h parent) h Hgp).
      * rewrite decide_False by exact Hh0. reflexivity.
      * unfold surgescript_object_child. simpl.
        apply (find_child_appended manager1 (object_child parent) name h
                 (new_object constructed manager ph name)); [| exact Hgh | reflexivity].
        intros x Hx. destruct (Hnonamed x Hx) as (xo & Hxo & Hxn).
        destruct (proj2 (spawn_extends _ _ _ _ _ _ _ Hp Hs) _ _ Hxo)
          as (xo' & Hxo' & Hname & _).
        exists xo'. split; [exact Hxo' | congruence].
  - exists component, manager.
    split.
    + rewrite (Hcall manager object1 o1 Ho1 eq_refl parent _ Hp Hchild).
      rewrite decide_False by exact Hc. reflexivity.
    + rewrite (Hcall manager object2 o2 Ho2 Hsame parent _ Hp Hchild).
      rewrite decide_False by exact Hc. reflexivity.
Qed.

(** X13. In a tree whose children point back to their parent, the component
    returned by [scripting_util_require_component] is a sibling of the
    requesting object: [scripting_util_parent_name] gives the same name for
    both. *)
Theorem required_component_has_same_parent_name
    (constructed : constructor_t)
    (manager manager1 : objectmanager_t) (object h : surgescript_objecthandle_t)
    (name : string) :
  surgescript_objectmanager_get manager (surgescript_objectmanager_null manager) = None →
  (∀ p po c co, surgescript_objectmanager_get manager p = Some po →
                c ∈ object_child po →
                surgescript_objectmanager_get manager c = Some co →
                object_parent co = p) →
  scripting_util_require_component constructed manager object name = Some (h, manager1) →
  is_Some (scripting_util_parent_name manager object)
  ∧ scripting_util_parent_name manager1 h = scripting_util_parent_name manager object.
Proof.
  intros Hnull Hback Hreq.
  destruct (require_component_cases _ _ _ _ _ _ Hreq)
    as (o & parent & component & Ho & Hp & Hc & [(Hne & -> & ->) | (-> & Hs)]).
  - destruct (find_child_found manager _ name component Hc Hne) as (Hin & co & Hco & _).
    pose proof (Hback _ _ _ _ Hp Hin Hco) as Hpar.
    unfold scripting_util_parent_name. rewrite Ho, Hco. simpl.
    unfold surgescript_object_parent in *. rewrite Hpar, Hp. simpl.
    split; [eexists|]; reflexivity.
  - destruct (spawn_lookup _ _ _ _ _ _ _ Hp Hs) as (Hh & Hroot & Hgh & Hgp & Hother).
    unfold scripting_util_parent_name. rewrite Ho, Hgh. simpl.
    rewrite Hp, Hgp. simpl. split; [eexists|]; reflexivity.
Qed.

Lemma rigid_apply2d_origin t :
  rigid_apply2d t (v2d_new 0 0) = v2d_new (position_x t) (position_y t).
Proof. unfold rigid_apply2d. simpl. f_equal; lra. Qed.

Lemma object_at_origin_sits_at_parent_witness :
  (∀ a, scripting_util_world_angle 3 sample_manager
          (surgescript_object_parent sample_leaf) = Some a →
        scripting_util_world_angle 4 sample_manager 4 = Some a)
  ∧ (∀ p, scripting_util_world_position rigid_apply2d 3 sample_manager
            (surgescript_object_parent sample_leaf) = Some p →
          scripting_util_world_position rigid_apply2d 4 sample_manager 4 = Some p).
Proof.
  apply (object_at_origin_sits_at_parent rigid_apply2d sample_manager 4
           sample_leaf sample_entity 3).
  - exact rigid_apply2d_origin.
  - reflexivity.
  - discriminate.
  - reflexivity.
  - reflexivity.
  - reflexivity.
Defined.

Lemma require_component_shared_by_siblings_witness :
  ∃ h manager1,
    scripting_util_require_component bare_objects family_manager 2 "Camera" = Some (h, manager1)
    ∧ scripting_util_require_component bare_objects manager1 3 "Camera" = Some (h, manager1).
Proof.
  apply (require_component_shared_by_siblings bare_objects family_manager 2 3
           (mk_object "Player" 1 [] None) (mk_object "Enemy" 1 [] None)
           (mk_object "System" 1 [2; 3] None) "Camera" 0); reflexivity.
Defined.

Lemma family_manager_children_point_back :
  ∀ p po c co, surgescript_objectmanager_get family_manager p = Some po →
               c ∈ object_child po →
               surgescript_objectmanager_get family_manager c = Some co →
               object_parent co = p.
Proof.
  intros p po c co Hp Hin Hc.
  unfold surgescript_objectmanager_get, family_manager in Hp. simpl in Hp.
  repeat (apply lookup_insert_Some in Hp as [[<- <-]|[? Hp]]);
    try (rewrite lookup_empty in Hp; discriminate);
    simpl in Hin;
    repeat (apply elem_of_cons in Hin as [->|Hin]);
    try (apply elem_of_nil in Hin; contradiction);
    vm_compute in Hc; injection Hc as <-; reflexivity.
Qed.

Lemma required_component_has_same_parent_name_witness :
  ∃ h manager1,
    scripting_util_require_component bare_objects family_manager 2 "Enemy" = Some (h, manager1)
    ∧ is_Some (scripting_util_parent_name family_manager 2)
    ∧ scripting_util_parent_name manager1 h = scripting_util_parent_name family_manager 2.
Proof.
  destruct (scripting_util_require_component bare_objects family_manager 2 "Enemy")
    as [[h manager1]|] eqn:Hreq; [|vm_compute in Hreq; discriminate].
  exists h, manager1. split; [reflexivity|].
  apply (required_component_has_same_parent_name bare_objects family_manager manager1 2 h "Enemy");
    [reflexivity | exact family_manager_children_point_back | exact Hreq].
Defined.

Example parent_name_of_leaf :
  scripting_util_parent_name sample_manager 4 = Some "Entity".
Proof. reflexivity. Qed.

Example parent_name_of_root :
  scripting_util_parent_name sample_manager 1 = Some "System".
Proof. reflexivity. Qed.

(** ** Lifecycle *)

Lemma copy_arguments_spec (argc : nat) :
  ∀ argv buffer : list string,
    argc ≤ length argv → argc ≤ length buffer →
    copy_arguments argc argv buffer = take argc argv ++ drop argc buffer.
Proof.
  induction argc as [|n IH]; intros argv buffer Hargv Hbuf; simpl; [reflexivity|].
  destruct (lookup_lt_is_Some_2 argv n ltac:(lia)) as [a Ha].
  rewrite Ha. simpl.
  rewrite IH by (rewrite ?length_insert; lia).
  rewrite (take_S_r _ _ _ Ha), <- app_assoc. f_equal.
  rewrite insert_take_drop by lia.
  rewrite drop_app_length' by (rewrite length_take_le; lia).
  reflexivity.
Qed.

(** X14. The loop of [scripting_init] that duplicates the command line copies
    each of the first [argc] arguments to its own index: the stored vector is
    the first [argc] entries of [argv], and [argv] itself when [argc] is its
    length. *)
Theorem copy_arguments_duplicates (argc : nat) (argv : list string) :
  argc ≤ length argv →
  copy_arguments argc argv (replicate argc "") = take argc argv
  ∧ (argc = length argv → copy_arguments argc argv (replicate argc "") = argv).
Proof.
  intros Hargc.
  assert (Hcopy : copy_arguments argc argv (replicate argc "") = take argc argv).
  { rewrite copy_arguments_spec by (rewrite ?length_replicate; lia).
    rewrite drop_replicate, Nat.sub_diag. simpl. apply app_nil_r. }
  split; [exact Hcopy|].
  intros ->. rewrite Hcopy. apply firstn_all.
Qed.

Lemma copy_arguments_duplicates_witness :
  copy_arguments 2 ["opensurge"; "--verbose"; "extra"] (replicate 2 "")
  = take 2 ["opensurge"; "--verbose"; "extra"]
  ∧ (2 = length ["opensurge"; "--verbose"; "extra"] →
     copy_arguments 2 ["opensurge"; "--verbose"; "extra"] (replicate 2 "")
     = ["opensurge"; "--verbose"; "extra"]).
Proof.
  apply (copy_arguments_duplicates 2 ["opensurge"; "--verbose"; "extra"]).
  simpl. lia.
Defined.

Section LifecycleExtras.

Context {ext : Collaborators}.

Lemma compile_scripts_returns g v :
  vm g = Some v →
  ∃ v1 compiled,
    Forall (is_compile_of (assetfs_files "scripts" ".ss")) compiled
    ∧ let found := surgescript_programpool_exists (vm_programpool v1)
                     "Application" "state:main" in
      compile_scripts g
      = Returned tt
          (mk_globals (Some (test_mode_vm found v1)) (vm_argv g) (vm_argc g) found
             (cached_ref g) (trace g ++ compiled ++ [test_mode_event found])).
Proof.
  intros Hv.
  destruct (compile_scripts_spec g v Hv) as (v1 & compiled & _ & Hall & Hc).
  exists v1, compiled. split; [exact Hall|]. simpl. rewrite Hc.
  destruct (surgescript_programpool_exists _ _ _); reflexivity.
Qed.

End LifecycleExtras.

(** X15. On a runtime that is not older than "0.5.4", [scripting_init] returns
    after, in this order, installing the error functions, creating the VM,
    registering the 25 builtins, compiling the scripts, settling the test
    mode and launching the VM; the VM is launched with the duplicated
    arguments, which are also what the statics keep, and the cached facade
    handle is not touched. *)
Theorem scripting_init_on_compatible_runtime
    (ext : Collaborators) (argc : nat) (argv : list string) (g : globals) :
  (util_versioncode (Some "0.5.4") ≤ util_versioncode None)%Z →
  argc ≤ length argv →
  ∃ v1 compiled,
    Forall (is_compile_of (assetfs_files "scripts" ".ss")) compiled
    ∧ let found := surgescript_programpool_exists (vm_programpool v1)
                     "Application" "state:main" in
      scripting_init argc argv g
      = Returned tt
          (mk_globals
             (Some (vm_launch_ex (test_mode_vm found v1) argc (take argc argv)))
             (Some (take argc argv)) argc found (cached_ref g)
             (trace g
                ++ [surgescript_util_set_error_functions; surgescript_vm_create]
                ++ map scripting_register surgeengine_builtins
                ++ compiled
                ++ [test_mode_event found;
                    surgescript_vm_launch_ex argc (take argc argv)])).
Proof.
  intros Hcode Hargc.
  unfold scripting_init, check_if_compatible, min_surgescript_version.
  rewrite decide_False by lia.
  rewrite (proj1 (copy_arguments_duplicates argc argv Hargc)).
  unfold mbind, M_bind, bind, mret, M_ret, ret, emit, set_vm, set_arguments.
  cbn [vm vm_argv vm_argc test_mode cached_ref trace].
  erewrite setup_surgeengine_spec by reflexivity.
  cbn [vm vm_argv vm_argc test_mode cached_ref trace].
  match goal with |- context [compile_scripts ?g1] =>
    destruct (compile_scripts_returns g1 _ eq_refl) as (v1 & compiled & Hall & Hc)
  end.
  exists v1, compiled. split; [exact Hall|].
  cbn zeta in Hc |- *. rewrite Hc.
  erewrite call_vm_launch_ex_spec by reflexivity.
  cbn [vm vm_argv vm_argc test_mode cached_ref trace default].
  rewrite <- !app_assoc. reflexivity.
Qed.

(** X16. When the reset succeeds, [scripting_reload] registers the builtins
    again, compiles the scripts, settles the test mode anew and launches the
    VM with the argument vector the statics hold, which it leaves as it is,
    like the cached facade handle. *)
Theorem scripting_reload_on_successful_reset
    (ext : Collaborators) (g : globals) (v v' : surgescript_vm_t) :
  vm g = Some v →
  vm_reset v = (true, v') →
  ∃ v1 compiled,
    Forall (is_compile_of (assetfs_files "scripts" ".ss")) compiled
    ∧ let found := surgescript_programpool_exists (vm_programpool v1)
                     "Application" "state:main" in
      scripting_reload g
      = Returned tt
          (mk_globals
             (Some (vm_launch_ex (test_mode_vm found v1) (vm_argc g)
                      (default [] (vm_argv g))))
             (vm_argv g) (vm_argc g) found (cached_ref g)
             (trace g
                ++ [logfile_message "Reloading scripts..."; surgescript_vm_reset true]
                ++ map scripting_register surgeengine_builtins
                ++ compiled
                ++ [test_mode_event found;
                    surgescript_vm_launch_ex (vm_argc g) (default [] (vm_argv g));
                    logfile_message "The scripts have been reloaded!"])).
Proof.
  intros Hv Hreset. unfold scripting_reload.
  unfold mbind, M_bind, bind, emit, get_vm, set_vm.
  cbn [vm vm_argv vm_argc test_mode cached_ref trace].
  rewrite Hv, Hreset. cbn [vm vm_argv vm_argc test_mode cached_ref trace negb].
  erewrite setup_surgeengine_spec by reflexivity.
  cbn [vm vm_argv vm_argc test_mode cached_ref trace].
  match goal with |- context [compile_scripts ?g1] =>
    destruct (compile_scripts_returns g1 _ eq_refl) as (v1 & compiled & Hall & Hc)
  end.
  exists v1, compiled. split; [exact Hall|].
  cbn zeta in Hc |- *. rewrite Hc.
  erewrite call_vm_launch_ex_spec by reflexivity.
  cbn [vm vm_argv vm_argc test_mode cached_ref trace].
  rewrite <- !app_assoc. reflexivity.
Qed.

Lemma foreach_compile_in_order {ext : Collaborators} files :
  ∀ g v, vm g = Some v →
    ∃ v' oks,
      foreach_file files compile_script g
      = Returned tt (mk_globals (Some v') (vm_argv g) (vm_argc g) (test_mode g)
                       (cached_ref g) (trace g ++ zip_with compile_event files oks))
      ∧ length oks ≤ length files
      ∧ ((∀ r, assetfs_proceeds r = true) → length oks = length files)
      ∧ (length oks < length files →
         ∃ ok, last oks = Some ok
               ∧ assetfs_proceeds (if ok then 0 else -1)%Z = false).
Proof.
  induction files as [|f files IH]; intros g v Hv.
  - exists v, []. simpl. unfold mret, M_ret, ret. rewrite app_nil_r, <- Hv.
    destruct g. repeat split; simpl; try done; lia.
  - simpl. unfold mbind, M_bind, bind.
    rewrite (compile_script_spec g v f Hv). cbv beta iota zeta.
    set (r := vm_compile _ _).
    destruct (assetfs_proceeds (if r.1 then 0 else -1)%Z) eqn:Hproceeds.
    + match goal with |- context [foreach_file files compile_script ?g1] =>
        destruct (IH g1 _ eq_refl) as (v' & oks & Hrun & Hlen & Hall & Hstop)
      end.
      exists v', (r.1 :: oks). rewrite Hrun.
      cbn [vm vm_argv vm_argc test_mode cached_ref trace].
      rewrite <- app_assoc. split; [reflexivity|].
      split; [simpl; lia|]. split; [intros Hp; simpl; rewrite (Hall Hp); reflexivity|].
      intros Hshort. simpl in Hshort.
      destruct (Hstop ltac:(lia)) as (ok & Hlast & Hok).
      exists ok. split; [|exact Hok].
      rewrite last_cons, Hlast. reflexivity.
    + exists (with_parser_flags SSPARSER_DEFAULTS r.2), [r.1].
      unfold mret, M_ret, ret. simpl.
      split; [destruct files; reflexivity|].
      split; [lia|]. split.
      * intros Hp. rewrite Hp in Hproceeds. discriminate.
      * intros _. exists r.1. split; [reflexivity | exact Hproceeds].
Qed.

(** X17. The scripts are compiled in the order of the enumeration, each at
    most once and without gaps: the compilations are those of a prefix of the
    enumerated files. The prefix is the whole list if the enumeration never
    stops early, and it stops short only after a compilation whose result the
    asset filesystem takes as a stop. *)
Theorem scripts_compile_in_enumeration_order
    (ext : Collaborators) (folder extension : string)
    (g : globals) (v : surgescript_vm_t) :
  vm g = Some v →
  ∃ v' oks,
    assetfs_foreach_file folder extension compile_script g
    = Returned tt
        (mk_globals (Some v') (vm_argv g) (vm_argc g) (test_mode g) (cached_ref g)
           (trace g ++ zip_with compile_event (assetfs_files folder extension) oks))
    ∧ length oks ≤ length (assetfs_files folder extension)
    ∧ ((∀ r, assetfs_proceeds r = true) →
       length oks = length (assetfs_files folder extension))
    ∧ (length oks < length (assetfs_files folder extension) →
       ∃ ok, last oks = Some ok
             ∧ assetfs_proceeds (if ok then 0 else -1)%Z = false).
Proof. intros Hv. apply (foreach_compile_in_order _ g v Hv). Qed.



Lemma scripting_init_on_compatible_runtime_witness :
  let ext := sample_collaborators 504 true sample_scripts in
  ∃ v1 compiled,
    Forall (is_compile_of (assetfs_files "scripts" ".ss")) compiled
    ∧ let found := surgescript_programpool_exists (vm_programpool v1)
                     "Application" "state:main" in
      scripting_init 2 ["opensurge"; "--verbose"] initial_globals
      = Returned tt
          (mk_globals
             (Some (vm_launch_ex (test_mode_vm found v1) 2
                      (take 2 ["opensurge"; "--verbose"])))
             (Some (take 2 ["opensurge"; "--verbose"])) 2 found
             (cached_ref initial_globals)
             (trace initial_globals
                ++ [surgescript_util_set_error_functions; surgescript_vm_create]
                ++ map scripting_register surgeengine_builtins
                ++ compiled
                ++ [test_mode_event found;
                    surgescript_vm_launch_ex 2 (take 2 ["opensurge"; "--verbose"])])).
Proof.
  intros ext.
  apply (scripting_init_on_compatible_runtime ext 2 ["opensurge"; "--verbose"]
           initial_globals).
  - simpl. lia.
  - simpl. lia.
Defined.

Lemma scripting_reload_on_successful_reset_witness :
  let ext := sample_collaborators 504 true sample_scripts in
  ∃ v1 compiled,
    Forall (is_compile_of (assetfs_files "scripts" ".ss")) compiled
    ∧ let found := surgescript_programpool_exists (vm_programpool v1)
                     "Application" "state:main" in
      scripting_reload sample_globals
      = Returned tt
          (mk_globals
             (Some (vm_launch_ex (test_mode_vm found v1) (vm_argc sample_globals)
                      (default [] (vm_argv sample_globals))))
             (vm_argv sample_globals) (vm_argc sample_globals) found
             (cached_ref sample_globals)
             (trace sample_globals
                ++ [logfile_message "Reloading scripts..."; surgescript_vm_reset true]
                ++ map scripting_register surgeengine_builtins
                ++ compiled
                ++ [test_mode_event found;
                    surgescript_vm_launch_ex (vm_argc sample_globals)
                      (default [] (vm_argv sample_globals));
                    logfile_message "The scripts have been reloaded!"])).
Proof.
  intros ext.
  apply (scripting_reload_on_successful_reset ext sample_globals sample_vm
           (mk_vm empty_session ∅ 0)); reflexivity.
Defined.

Lemma scripts_compile_in_enumeration_order_witness :
  let ext := sample_collaborators 504 true sample_scripts in
  ∃ v' oks,
    assetfs_foreach_file "scripts" ".ss" compile_script sample_globals
    = Returned tt
        (mk_globals (Some v') (vm_argv sample_globals) (vm_argc sample_globals)
           (test_mode sample_globals) (cached_ref sample_globals)
           (trace sample_globals
              ++ zip_with compile_event (assetfs_files "scripts" ".ss") oks))
    ∧ length oks ≤ length (assetfs_files "scripts" ".ss")
    ∧ ((∀ r, assetfs_proceeds r = true) →
       length oks = length (assetfs_files "scripts" ".ss"))
    ∧ (length oks < length (assetfs_files "scripts" ".ss") →
       ∃ ok, last oks = Some ok
             ∧ assetfs_proceeds (if ok then 0 else -1)%Z = false).
Proof.
  intros ext.
  apply (scripts_compile_in_enumeration_order ext "scripts" ".ss" sample_globals
           sample_vm).
  reflexivity.
Defined.


Example scripting_init_sample_trace :
  trace <$> globals_of (scripting_init
                          (ext := sample_collaborators 504 true
                                    ["scripts/mod.ss"; "scripts/test.ss"])
                          1 ["opensurge"] initial_globals)
  = Some ([surgescript_util_set_error_functions; surgescript_vm_create]
          ++ map scripting_register surgeengine_builtins
          ++ [surgescript_vm_compile "/game/scripts/mod.ss" 1 true;
              surgescript_vm_compile "/game/scripts/test.ss" 0 true;
              logfile_message "Got a test script...";
              surgescript_vm_launch_ex 1 ["opensurge"]]).
Proof. vm_compute. reflexivity. Qed.

Local Open Scope R_scope.

Lemma fold_untouched (apply2d : transform_t → v2d_t → v2d_t)
    (l : list object_t) (wp : v2d_t) :
  Forall (λ a, object_transform_ptr a = None) l →
  fold_left (λ acc a,
      if surgescript_object_transform_changed a
      then apply2d (surgescript_object_peek_transform a) acc
      else acc) l wp = wp.
Proof.
  induction 1 as [|a l Ha _ IH]; simpl; [reflexivity|].
  unfold surgescript_object_transform_changed at 2. rewrite Ha. exact IH.
Qed.

Lemma rotation_sum_untouched (l : list object_t) :
  Forall (λ a, object_transform_ptr a = None) l → rotation_sum l = 0.
Proof.
  induction 1 as [|a l Ha _ IH]; [reflexivity|].
  change (rotation_sum (a :: l)) with (rotation_sum l + local_rotation a).
  rewrite IH. unfold local_rotation, surgescript_object_peek_transform.
  rewrite Ha. simpl. lra.
Qed.

(** X19. Under ancestors whose transforms were never touched, world and local
    coordinates coincide: the world position is the local position, whatever
    the runtime's point transformation does (it is not called), and the world
    angle is the local rotation. *)
Theorem world_is_local_under_untouched_ancestors
    (apply2d : transform_t → v2d_t → v2d_t)
    (manager : objectmanager_t) (object : surgescript_objecthandle_t)
    (o : object_t) (l : list object_t) (fuel : nat) :
  surgescript_objectmanager_get manager object = Some o →
  ancestor_chain manager object l →
  (length l ≤ fuel)%nat →
  Forall (λ a, object_transform_ptr a = None) l →
  scripting_util_world_position apply2d fuel manager object = Some (local_position o)
  ∧ (root_is_own_parent manager →
     ∃ a, scripting_util_world_angle (S fuel) manager object = Some a
          ∧ a = local_rotation o).
Proof.
  intros Ho Hc Hlen Hun. split.
  - unfold scripting_util_world_position. rewrite Ho. simpl.
    rewrite (world_position_loop_chain apply2d _ _ _ Hc) by first [exact Ho | exact Hlen].
    rewrite fold_untouched by exact Hun. reflexivity.
  - intros Hroot. eexists. split.
    + apply (world_angle_chain manager object l Hroot Hc); [exact Ho | lia].
    + change (rotation_sum (o :: l)) with (rotation_sum l + local_rotation o).
      rewrite rotation_sum_untouched by exact Hun. lra.
Qed.

Lemma world_is_local_under_untouched_ancestors_witness :
  scripting_util_world_position rigid_apply2d 1 shallow_manager 2%nat
  = Some (v2d_new 5 6)
  ∧ (root_is_own_parent shallow_manager →
     ∃ a, scripting_util_world_angle 2 shallow_manager 2%nat = Some a
          ∧ a = 70).
Proof.
  apply (world_is_local_under_untouched_ancestors rigid_apply2d shallow_manager 2%nat
           (mk_object "Player" 1%nat [] (Some (mk_transform 5 6 70)))
           [mk_object "System" 1%nat [2%nat] None] 1%nat).
  - reflexivity.
  - eapply (chain_step _ 2%nat); [done | reflexivity | reflexivity |].
    apply chain_root; [reflexivity | eexists; reflexivity].
  - simpl. lia.
  - repeat constructor.
Defined.


Local Close Scope R_scope.
